(** * CEX-spider: the paginated candle fetcher and the CSV writer

    A shallow embedding of [DataFetcher] (src/modules/dataFetcher.ts):
    [fetchSymbolData] (symbol resolution and the pagination loop) and
    [writeDataToCSV] (path derivation and CSV rendering), with the
    properties the specification states about them.

    The file is organised as follows:
    - [JS]: the fragment of the language's values and built-ins the
      source relies on (strings, numbers, [Date]);
    - [Fetcher]: the exchange adapter interface, [fetchSymbolData];
    - [Csv]: the file-system interface, [writeDataToCSV];
    - the properties. *)

From stdpp Require Import base gmap strings list pretty.
From Stdlib Require Import ZArith Lia.

Local Open Scope string_scope.
Local Open Scope list_scope.
Local Open Scope Z_scope.

Set Warnings "-register-all".

(** ** The language fragment *)

Module JS.

(** *** Strings *)

(** Characters that cannot be written inside a string literal here. *)
Definition dquote : string := String (Ascii.ascii_of_nat 34) EmptyString.
Definition newline : string := String (Ascii.ascii_of_nat 10) EmptyString.
Definition backslash : string := String (Ascii.ascii_of_nat 92) EmptyString.

(** [String.prototype.replace(pattern, replacement)] with a string
    pattern: only the FIRST occurrence of [pattern] is replaced.  (The
    replacement strings of the source, "-" and "_", contain no "$", so
    no replacement pattern is involved.) *)
Fixpoint replace (pattern replacement s : string) : string :=
  if String.prefix pattern s then
    replacement +:+ String.substring (String.length pattern)
                      (String.length s - String.length pattern)%nat s
  else match s with
       | EmptyString => EmptyString
       | String c s' => String c (replace pattern replacement s')
       end.

Fixpoint repeat_string (n : nat) (s : string) : string :=
  match n with
  | O => EmptyString
  | S n' => s +:+ repeat_string n' s
  end.

(** [String.prototype.padStart(targetLength, padString)] for a
    one-character [padString]. *)
Definition padStart (targetLength : nat) (padString s : string) : string :=
  repeat_string (targetLength - String.length s) padString +:+ s.

(** *** Numbers

    A finite number is written as the decimal [m * 10^e]; the three
    other constructors are the remaining values of the type.  Every
    double has such a decimal (the one the language prints for it), and
    the integers of magnitude below 2^53, among them all time values,
    are represented exactly, [Int z] being [Fin z 0]. *)
Inductive number :=
| Fin (m e : Z)
| NaN
| Infinity
| NegInfinity.

Definition Int (z : Z) : number := Fin z 0.

Global Instance number_eq_dec : EqDecision number.
Proof. solve_decision. Defined.

(** The integer a finite number denotes, when it denotes one. *)
Definition to_Z (x : number) : option Z :=
  match x with
  | Fin m e =>
      if 0 <=? e then Some (m * 10 ^ e)
      else if m mod 10 ^ (- e) =? 0 then Some (m / 10 ^ (- e)) else None
  | _ => None
  end.

(** Truncation towards zero ([ToIntegerOrInfinity] on a finite value). *)
Definition truncate (m e : Z) : Z :=
  if 0 <=? e then m * 10 ^ e else Z.quot m (10 ^ (- e)).

(** [x + 1].  Exact on the integers below 2^53; on other finite values
    the sum is taken in decimal, where the language rounds to the
    nearest double. *)
Definition add1 (x : number) : number :=
  match x with
  | Fin m e => if 0 <=? e then Fin (m * 10 ^ e + 1) 0 else Fin (m + 10 ^ (- e)) e
  | NaN => NaN
  | Infinity => Infinity
  | NegInfinity => NegInfinity
  end.

(** [n < limit] for an array length [n]. *)
Definition length_lt (n : nat) (limit : number) : bool :=
  match limit with
  | Fin m e =>
      if 0 <=? e then Z.of_nat n <? m * 10 ^ e
      else Z.of_nat n * 10 ^ (- e) <? m
  | NaN => false
  | Infinity => true
  | NegInfinity => false
  end.

(** Truthiness of a number: zero and [NaN] are falsy. *)
Definition number_truthy (x : number) : bool :=
  match x with
  | Fin m _ => negb (m =? 0)
  | NaN => false
  | _ => true
  end.

(** [Number::toString] (radix 10).  [strip_zeros] brings the decimal to
    its digits [s] without trailing zeros; with [k] the number of digits
    and [n = k + e], the four layouts of the language follow. *)
Fixpoint strip_zeros (fuel : nat) (s e : Z) : Z * Z :=
  match fuel with
  | O => (s, e)
  | S fuel' =>
      if (s mod 10 =? 0) && negb (s =? 0)
      then strip_zeros fuel' (s / 10) (e + 1)
      else (s, e)
  end.

Definition digits (z : Z) : string := pretty (Z.to_N z).

Definition string_take (n : nat) (s : string) : string := String.substring 0 n s.
Definition string_drop (n : nat) (s : string) : string :=
  String.substring n (String.length s - n) s.

Definition positive_to_string (m e : Z) : string :=
  let '(s, e) := strip_zeros (Z.to_nat (Z.log2 m) + 1) m e in
  let ds := digits s in
  let k := Z.of_nat (String.length ds) in
  let n := k + e in
  if (k <=? n) && (n <=? 21) then
    ds +:+ repeat_string (Z.to_nat (n - k)) "0"
  else if (0 <? n) && (n <=? 21) then
    string_take (Z.to_nat n) ds +:+ "." +:+ string_drop (Z.to_nat n) ds
  else if (-6 <? n) && (n <=? 0) then
    "0." +:+ repeat_string (Z.to_nat (- n)) "0" +:+ ds
  else
    let exponent := (if n - 1 <? 0 then "-" else "+") +:+ digits (Z.abs (n - 1)) in
    if k =? 1 then ds +:+ "e" +:+ exponent
    else string_take 1 ds +:+ "." +:+ string_drop 1 ds +:+ "e" +:+ exponent.

Definition number_to_string (x : number) : string :=
  match x with
  | NaN => "NaN"
  | Infinity => "Infinity"
  | NegInfinity => "-Infinity"
  | Fin m e =>
      if m =? 0 then "0"
      else if m <? 0 then "-" +:+ positive_to_string (- m) e
      else positive_to_string m e
  end.

(** *** Values

    The values an [any] of the source ranges over here: the primitive
    values and arrays. *)
Inductive value :=
| JUndefined
| JNull
| JBool (b : bool)
| JNum (x : number)
| JStr (s : string)
| JArr (xs : list value).

(** Truthiness ([ToBoolean]). *)
Definition truthy (v : value) : bool :=
  match v with
  | JUndefined | JNull => false
  | JBool b => b
  | JNum x => number_truthy x
  | JStr s => negb (String.eqb s "")
  | JArr _ => true
  end.

Definition Array_isArray (v : value) : bool :=
  match v with JArr _ => true | _ => false end.

Definition typeof_number (v : value) : bool :=
  match v with JNum _ => true | _ => false end.

(** The elements of an array (nothing for another value). *)
Definition elements (v : value) : list value :=
  match v with JArr xs => xs | _ => [] end.

(** [xs[i]]: [undefined] out of range. *)
Definition index (xs : list value) (i : nat) : value :=
  default JUndefined (xs !! i).

Fixpoint join (sep : string) (parts : list string) : string :=
  match parts with
  | [] => EmptyString
  | [p] => p
  | p :: ps => p +:+ sep +:+ join sep ps
  end.

(** [ToString], as a template literal applies it.  An array prints as
    its elements joined by commas, [undefined] and [null] elements
    printing as nothing. *)
Fixpoint ToString (v : value) : string :=
  match v with
  | JUndefined => "undefined"
  | JNull => "null"
  | JBool b => if b then "true" else "false"
  | JNum x => number_to_string x
  | JStr s => s
  | JArr xs =>
      join ","
        ((fix elements (l : list value) : list string :=
            match l with
            | [] => []
            | x :: l' =>
                (match x with
                 | JUndefined | JNull => EmptyString
                 | _ => ToString x
                 end) :: elements l'
            end) xs)
  end.

(** *** Errors and completions *)

Record error := Error { error_name : string; error_message : string }.

Global Instance error_eq_dec : EqDecision error.
Proof. solve_decision. Defined.

(** How a call completes: with a value, or by throwing. *)
Inductive completion (T : Type) :=
| Normal (v : T)
| Throw (e : error).
Arguments Normal {T} v.
Arguments Throw {T} e.

(** *** Dates

    A [Date] object is its time value, [None] standing for the NaN of an
    invalid date. *)
Definition msPerDay : Z := 86400000.
Definition maxTime : Z := 8640000000000000.

(** [TimeClip]: out of range and non-finite numbers give an invalid
    date, the others are truncated to an integer. *)
Definition TimeClip (x : number) : option Z :=
  match x with
  | Fin m e =>
      if (if 0 <=? e then Z.abs (m * 10 ^ e) <=? maxTime
          else Z.abs m <=? maxTime * 10 ^ (- e))
      then Some (truncate m e) else None
  | _ => None
  end.

Definition RangeError_invalid_time : error :=
  Error "RangeError" "Invalid time value".

(** [Date.prototype.toISOString] throws on an invalid date.  Its result
    only ever reaches the log, so the string itself is not built. *)
Definition toISOString (date : option Z) : completion unit :=
  match date with
  | Some _ => Normal tt
  | None => Throw RangeError_invalid_time
  end.

(** [new Date('2020-01-01').getTime()]: a date-only string is UTC. *)
Definition time_2020_01_01 : Z := 1577836800000.

(** Day number of a time value, and the civil date of a day number
    (proleptic Gregorian calendar, days counted from 1970-01-01):
    year, month (1 to 12) and day of the month. *)
Definition Day (t : Z) : Z := t / msPerDay.

Definition civil (day : Z) : Z * Z * Z :=
  let z := day + 719468 in
  let era := z / 146097 in
  let doe := z - era * 146097 in
  let yoe := (doe - doe / 1460 + doe / 36524 - doe / 146096) / 365 in
  let doy := doe - (365 * yoe + yoe / 4 - yoe / 100) in
  let mp := (5 * doy + 2) / 153 in
  let d := doy - (153 * mp + 2) / 5 + 1 in
  let m := if mp <? 10 then mp + 3 else mp - 9 in
  let y := yoe + era * 400 + (if m <=? 2 then 1 else 0) in
  (y, m, d).

Definition YearFromTime (t : Z) : Z := (civil (Day t)).1.1.
Definition MonthFromTime (t : Z) : Z := (civil (Day t)).1.2 - 1.
Definition DateFromTime (t : Z) : Z := (civil (Day t)).2.

Section LocalTime.
(** The environment of a run: the offset of local time from UTC at a
    given instant (milliseconds), and the implementation-defined
    [Date.parse]. *)
Variable LocalTZA : Z -> Z.
Variable Date_parse : string -> number.

(** [new Date(v)] for a value that is not itself a date: a string (or
    an array, whose primitive is a string) is parsed, anything else is
    converted to a number. *)
Definition new_Date (v : value) : option Z :=
  match v with
  | JUndefined => None
  | JNull => Some 0
  | JBool b => Some (if b then 1 else 0)
  | JNum x => TimeClip x
  | JStr s => TimeClip (Date_parse s)
  | JArr _ => TimeClip (Date_parse (ToString v))
  end.

Definition LocalTime (t : Z) : Z := t + LocalTZA t.

Definition getFullYear (date : option Z) : number :=
  match date with
  | Some t => Int (YearFromTime (LocalTime t))
  | None => NaN
  end.

Definition getMonth (date : option Z) : number :=
  match date with
  | Some t => Int (MonthFromTime (LocalTime t))
  | None => NaN
  end.

Definition getDate (date : option Z) : number :=
  match date with
  | Some t => Int (DateFromTime (LocalTime t))
  | None => NaN
  end.
End LocalTime.

End JS.

(** ** The paginated candle fetcher *)

Module Fetcher.
Import JS.

Section Exchange.
(** [Market] is the exchange's metadata of a trading pair, [A] the
    state of an exchange instance (the adapter and the exchange behind
    it). *)
Context {Market A : Type}.

(** The two calls [fetchSymbolData] makes on [this.exchange].  The
    market catalog is a dictionary from symbol to market metadata. *)
Record Exchange := {
  loadMarkets : A -> completion (gmap string Market) * A;
  fetchOHLCV : string -> string -> number -> number -> A ->
               completion (list value) * A
}.

(** What a run does to the outside, in order: the adapter calls with
    their completions, and the pauses between requests. *)
Inductive event :=
| LoadMarkets (r : completion (gmap string Market))
| Delay (ms : Z)
| FetchOHLCV (symbol timeframe : string) (since limit : number)
             (r : completion (list value)).

(** How a run ends; [Unfinished] is a run cut short by the bound on
    the number of loop iterations. *)
Inductive outcome :=
| Returned (data : list value)
| Raised (e : error)
| Unfinished.

(** *** Symbol resolution (the [if (!markets[symbol])] block) *)

(** [markets[s]] is truthy.  The catalog is a plain dictionary: an
    entry is a market object (truthy), a missing key reads as
    [undefined]. *)
Definition listed (markets : gmap string Market) (s : string) : bool :=
  bool_decide (is_Some (markets !! s)).

Definition resolveSymbol (markets : gmap string Market) (symbol : string)
  : option string :=
  if negb (listed markets symbol) then
    let symbolVariants :=
      [symbol; replace "/" "-" symbol; replace "/" "_" symbol] in
    let foundSymbol := List.find (listed markets) symbolVariants in
    match foundSymbol with
    | Some variant => if truthy (JStr variant) then Some variant else None
    | None => None
    end
  else Some symbol.


(** *** The pagination loop *)

Record loop_state := LoopState {
  allData : list value;
  currentSince : number;
  totalRequests : nat
}.

(** The timestamp of the last entry of a page, under the checks of the
    source: the entry is truthy, an array, not empty, and its first
    element is a number. *)
Definition lastTimestamp (ohlcv : list value) : option number :=
  let lastEntry := index ohlcv (length ohlcv - 1) in
  if truthy lastEntry && Array_isArray lastEntry
     && (0 <? length (elements lastEntry))%nat
  then
    let lastTimestamp := index (elements lastEntry) 0 in
    match lastTimestamp with
    | JNum t => Some t       (* typeof lastTimestamp === 'number' *)
    | _ => None
    end
  else None.

(** The ways the last entry of a page can lack a timestamp: it is
    missing (or otherwise falsy), not an array, an empty array, or an
    array whose first element is not a number. *)
Definition lacks_timestamp (lastEntry : value) : Prop :=
  truthy lastEntry = false \/
  Array_isArray lastEntry = false \/
  lastEntry = JArr [] \/
  exists first rest, lastEntry = JArr (first :: rest) /\
                     typeof_number first = false.

(** One iteration of [while (true)]: go on, leave the loop, or throw. *)
Inductive step :=
| Next (st : loop_state)
| Break (st : loop_state)
| Raise (e : error).

Variable exchange : Exchange.

Definition loop_body (symbol : string) (limit : number)
    (st : loop_state) (a : A) : step * A * list event :=
  let totalRequests := S (totalRequests st) in
  (* the argument of logger.debug: new Date(currentSince).toISOString() *)
  match toISOString (TimeClip (currentSince st)) with
  | Throw e => (Raise e, a, [])
  | Normal _ =>
      let delay := if (1 <? totalRequests)%nat then [Delay 1000] else [] in
      match fetchOHLCV exchange symbol "1d" (currentSince st) limit a with
      | (Throw e, a') =>
          (Raise e, a',
           delay ++ [FetchOHLCV symbol "1d" (currentSince st) limit (Throw e)])
      | (Normal ohlcv, a') =>
          let tr :=
            delay ++ [FetchOHLCV symbol "1d" (currentSince st) limit
                        (Normal ohlcv)] in
          if (length ohlcv =? 0)%nat then
            (Break (LoopState (allData st) (currentSince st) totalRequests),
             a', tr)
          else
            let allData := allData st ++ ohlcv in
            match lastTimestamp ohlcv with
            | Some lastTimestamp =>
                let currentSince := add1 lastTimestamp in
                if length_lt (length ohlcv) limit then
                  (Break (LoopState allData currentSince totalRequests),
                   a', tr)
                else
                  (Next (LoopState allData currentSince totalRequests),
                   a', tr)
            | None =>
                (Break (LoopState allData (currentSince st) totalRequests),
                 a', tr)
            end
      end
  end.

(** The loop, cut after [fuel] iterations; it ends with the
    [return allData] that follows it. *)
Fixpoint pagination (fuel : nat) (symbol : string) (limit : number)
    (st : loop_state) (a : A) : outcome * A * list event :=
  match fuel with
  | O => (Unfinished, a, [])
  | S fuel' =>
      match loop_body symbol limit st a with
      | (Raise e, a', tr) => (Raised e, a', tr)
      | (Break st', a', tr) => (Returned (allData st'), a', tr)
      | (Next st', a', tr) =>
          let '(r, a'', tr') := pagination fuel' symbol limit st' a' in
          (r, a'', tr ++ tr')
      end
  end.

(** [since || new Date('2020-01-01').getTime()] *)
Definition startDate (since : option number) : number :=
  match since with
  | Some s => if number_truthy s then s else Int time_2020_01_01
  | None => Int time_2020_01_01
  end.

(** The [try] block. *)
Definition fetchSymbolData_try (fuel : nat) (symbol : string)
    (since : option number) (limit : number) (a : A)
  : outcome * A * list event :=
  match loadMarkets exchange a with
  | (Throw e, a1) => (Raised e, a1, [LoadMarkets (Throw e)])
  | (Normal markets, a1) =>
      let tr := [LoadMarkets (Normal markets)] in
      match resolveSymbol markets symbol with
      | None => (Returned [], a1, tr)
      | Some symbol =>
          let startDate := startDate since in
          (* the argument of logger.info: new Date(startDate).toISOString() *)
          match toISOString (TimeClip startDate) with
          | Throw e => (Raised e, a1, tr)
          | Normal _ =>
              let '(r, a2, tr') :=
                pagination fuel symbol limit (LoopState [] startDate 0) a1 in
              (r, a2, tr ++ tr')
          end
      end
  end.

(** The [catch] block logs the error (message, stack and class name,
    with a hint for network and rate-limit errors) and throws it again. *)
Definition rethrow (error : error) : outcome := Raised error.

(** [fetchSymbolData(symbol, since?, limit = 100)] *)
Definition fetchSymbolData (fuel : nat) (symbol : string)
    (since limit : option number) (a : A) : outcome * A * list event :=
  let limit := default (Int 100) limit in
  match fetchSymbolData_try fuel symbol since limit a with
  | (Raised error, a', tr) => (rethrow error, a', tr)
  | run => run
  end.

(** *** Reading a trace *)

Definition is_request (ev : event) : bool :=
  match ev with FetchOHLCV _ _ _ _ _ => true | _ => false end.

(** The number of [fetchOHLCV] requests issued. *)
Definition request_count (tr : list event) : nat :=
  length (List.filter is_request tr).

(** The error an adapter call threw, if it did. *)
Definition thrown (ev : event) : option error :=
  match ev with
  | LoadMarkets (Throw e) => Some e
  | FetchOHLCV _ _ _ _ (Throw e) => Some e
  | _ => None
  end.

(** Some adapter call of the run threw. *)
Definition adapter_raised (tr : list event) : Prop :=
  exists ev e, ev ∈ tr /\ thrown ev = Some e.

(** The answered requests, each with its [since] cursor and its page. *)
Fixpoint exchanges (tr : list event) : list (number * list value) :=
  match tr with
  | [] => []
  | FetchOHLCV _ _ since _ (Normal page) :: tr' => (since, page) :: exchanges tr'
  | _ :: tr' => exchanges tr'
  end.

(** The concatenation of all fetched batches. *)
Definition fetched (tr : list event) : list value :=
  concat (snd <$> exchanges tr).

(** Each request starts at [cursor]: the first at the given one, every
    later one at the last timestamp of the page before it, plus one. *)
Fixpoint cursor_chain (cursor : number) (xs : list (number * list value))
  : Prop :=
  match xs with
  | [] => True
  | (since, page) :: xs' =>
      since = cursor /\
      (xs' = [] \/
       exists t, lastTimestamp page = Some t /\ cursor_chain (add1 t) xs')
  end.

(** The cursors of a run are valid dates: the start, and the time
    after the last timestamp of every page. *)
Definition cursors_valid (start : number) (tr : list event) : Prop :=
  is_Some (TimeClip start) /\
  forall x t, x ∈ exchanges tr -> lastTimestamp x.2 = Some t ->
              is_Some (TimeClip (add1 t)).

(** The timestamp of a candle, when it is an array that starts with an
    integer number. *)
Definition entry_time (entry : value) : option Z :=
  match entry with
  | JArr (JNum t :: _) => to_Z t
  | _ => None
  end.

(** All entries are such candles, in non-decreasing order of timestamp,
    none before [from]. *)
Fixpoint ascending_from (from : Z) (entries : list value) : bool :=
  match entries with
  | [] => true
  | entry :: entries' =>
      match entry_time entry with
      | Some t => (from <=? t) && ascending_from t entries'
      | None => false
      end
  end.

(** The timestamp of the last of the entries ([from] when there is
    none). *)
Fixpoint last_time (from : Z) (entries : list value) : Z :=
  match entries with
  | [] => from
  | entry :: entries' =>
      match entry_time entry with
      | Some t => last_time t entries'
      | None => from
      end
  end.

(** The adapter's side of the contract on one request: the page is
    ascending and starts no earlier than the requested [since]. *)
Definition page_in_order (x : number * list value) : bool :=
  match to_Z x.1 with
  | Some since => ascending_from since x.2
  | None => false
  end.

(** *** Runs

    The runs of the loop from a state [st], told by their outcome and
    trace alone: every run of [pagination] is one of these (lemma
    [pagination_run] below). *)
Definition pause (st : loop_state) : list event :=
  if (1 <? S (totalRequests st))%nat then [Delay 1000] else [].

Inductive loop_run (symbol : string) (limit : number)
  : loop_state -> outcome -> list event -> Prop :=
| run_unfinished st :
    loop_run symbol limit st Unfinished []
| run_invalid_time st :
    TimeClip (currentSince st) = None ->
    loop_run symbol limit st (Raised RangeError_invalid_time) []
| run_throw st e :
    is_Some (TimeClip (currentSince st)) ->
    loop_run symbol limit st (Raised e)
      (pause st ++ [FetchOHLCV symbol "1d" (currentSince st) limit (Throw e)])
| run_break st ohlcv :
    is_Some (TimeClip (currentSince st)) ->
    ohlcv = [] \/ lastTimestamp ohlcv = None \/
      length_lt (length ohlcv) limit = true ->
    loop_run symbol limit st (Returned (allData st ++ ohlcv))
      (pause st ++ [FetchOHLCV symbol "1d" (currentSince st) limit (Normal ohlcv)])
| run_next st ohlcv t r tr :
    is_Some (TimeClip (currentSince st)) ->
    ohlcv <> [] ->
    lastTimestamp ohlcv = Some t ->
    length_lt (length ohlcv) limit = false ->
    loop_run symbol limit
      (LoopState (allData st ++ ohlcv) (add1 t) (S (totalRequests st))) r tr ->
    loop_run symbol limit st r
      (pause st ++
       FetchOHLCV symbol "1d" (currentSince st) limit (Normal ohlcv) :: tr).

(** The runs of [fetchSymbolData], likewise. *)
Inductive fetch_run (symbol : string) (since : option number) (limit : number)
  : outcome -> list event -> Prop :=
| fetch_no_markets e :
    fetch_run symbol since limit (Raised e) [LoadMarkets (Throw e)]
| fetch_unsupported markets :
    resolveSymbol markets symbol = None ->
    fetch_run symbol since limit (Returned []) [LoadMarkets (Normal markets)]
| fetch_invalid_start markets resolved :
    resolveSymbol markets symbol = Some resolved ->
    TimeClip (startDate since) = None ->
    fetch_run symbol since limit (Raised RangeError_invalid_time)
      [LoadMarkets (Normal markets)]
| fetch_paginated markets resolved r tr :
    resolveSymbol markets symbol = Some resolved ->
    is_Some (TimeClip (startDate since)) ->
    loop_run resolved limit (LoopState [] (startDate since) 0) r tr ->
    fetch_run symbol since limit r (LoadMarkets (Normal markets) :: tr).

End Exchange.

Arguments Exchange : clear implicits.
Arguments event : clear implicits.

(** *** A simulated adapter

    The adapter of the specification's test scenarios: a fixed catalog,
    and a script of completions handed out one per [fetchOHLCV] call,
    whatever is asked (empty pages once the script is exhausted). *)
Definition scripted (markets : gmap string unit)
  : Exchange unit (list (completion (list value))) :=
  {| loadMarkets script := (Normal markets, script);
     fetchOHLCV _ _ _ _ script :=
       match script with
       | [] => (Normal [], [])
       | page :: script' => (page, script')
       end |}.

(** A daily candle, with the prices of the specification's example
    [[1700000000000, 100.5, 110, 95, 105.25, 123.4]]. *)
Definition candle (timestamp : Z) : value :=
  JArr [JNum (Int timestamp); JNum (Fin 1005 (-1)); JNum (Int 110);
        JNum (Int 95); JNum (Fin 10525 (-2)); JNum (Fin 1234 (-1))].

(** [n] daily candles from [first] on. *)
Definition daily (first : Z) (n : nat) : list value :=
  (fun i => candle (first + Z.of_nat i * msPerDay)) <$> seq 0 n.

(** A catalog with one market, listed with a dash, and scripts over it:
    pages of 100, 100 and 37 daily candles from 2020-01-01 on; a full
    page of two candles followed by a page whose last entry is an empty
    array; a full page followed by a network error. *)
Definition okx_markets : gmap string unit := {[ "ETH-USDT" := tt ]}.

Definition page1 : list value := daily time_2020_01_01 100.
Definition page2 : list value := daily (time_2020_01_01 + 100 * msPerDay) 100.
Definition page3 : list value := daily (time_2020_01_01 + 200 * msPerDay) 37.

Definition three_pages : list (completion (list value)) :=
  [Normal page1; Normal page2; Normal page3].

Definition broken_page : list value :=
  [candle (time_2020_01_01 + 2 * msPerDay); JArr []].

Definition broken_script : list (completion (list value)) :=
  [Normal (daily time_2020_01_01 2); Normal broken_page;
   Normal (daily (time_2020_01_01 + 4 * msPerDay) 2)].

Definition timeout_error : error := Error "NetworkError" "request timed out".

Definition failing_script : list (completion (list value)) :=
  [Normal (daily time_2020_01_01 2); Throw timeout_error;
   Normal (daily (time_2020_01_01 + 2 * msPerDay) 2)].

End Fetcher.

(** ** The CSV writer *)

Module Csv.
Import JS.

Section Writer.
(** The environment of a run (see [JS.new_Date]). *)
Variable LocalTZA : Z -> Z.
Variable Date_parse : string -> number.

(** The calls [writeDataToCSV] makes on [path] and [fs], over a state
    [FS] of the file system. *)
Context {FS : Type}.
Record FileSystem := {
  dirname : string -> string;
  existsSync : string -> FS -> bool;
  mkdirSync : string -> FS -> completion unit * FS;   (* recursive *)
  writeFileSync : string -> string -> FS -> completion unit * FS
}.
Variable fs : FileSystem.

(** The target path: [filePath] when given (and not empty), else the
    path derived from the exchange and the symbol. *)
Definition targetPath (exchangeId symbol : string) (filePath : option string)
  : string :=
  let derived :=
    let cleanSymbol := replace backslash "-" (replace "/" "-" symbol) in
    "./data/" +:+ exchangeId +:+ "_" +:+ cleanSymbol +:+ "_daily.csv" in
  match filePath with
  | Some p => if truthy (JStr p) then p else derived
  | None => derived
  end.

(** The derived path in the words of the specification: EVERY
    occurrence of "/" and of the backslash gives way to "-". *)
Fixpoint replace_every (c : Ascii.ascii) (replacement s : string) : string :=
  match s with
  | EmptyString => EmptyString
  | String a s' =>
      if Ascii.eqb a c then replacement +:+ replace_every c replacement s'
      else String a (replace_every c replacement s')
  end.

Definition slash : Ascii.ascii := Ascii.ascii_of_nat 47.
Definition backslash_char : Ascii.ascii := Ascii.ascii_of_nat 92.

Definition targetPath_spec (exchangeId symbol : string) : string :=
  let cleanSymbol :=
    replace_every backslash_char "-" (replace_every slash "-" symbol) in
  "./data/" +:+ exchangeId +:+ "_" +:+ cleanSymbol +:+ "_daily.csv".

Fixpoint occurrences (c : Ascii.ascii) (s : string) : nat :=
  match s with
  | EmptyString => O
  | String a s' => ((if Ascii.eqb a c then 1 else 0) + occurrences c s')%nat
  end.

Definition header : string :=
  "timestamp,open,high,low,close,volume" +:+ newline.

Definition TypeError_not_iterable : error :=
  Error "TypeError" "item is not iterable".

(** What array destructuring iterates over: the elements of an array,
    the characters of a string (one per code unit here); any other
    value here is not iterable. *)
Definition iterate (item : value) : completion (list value) :=
  match item with
  | JArr xs => Normal xs
  | JStr s => Normal ((fun c => JStr (String c EmptyString)) <$> String.list_ascii_of_string s)
  | _ => Throw TypeError_not_iterable
  end.

(** [YYYY-MM-DD] of a date, in local time; the year is not padded. *)
Definition formattedDate (date : option Z) : string :=
  number_to_string (getFullYear LocalTZA date) +:+ "-" +:+
  padStart 2 "0" (number_to_string (add1 (getMonth LocalTZA date))) +:+ "-" +:+
  padStart 2 "0" (number_to_string (getDate LocalTZA date)).

(** The line of one item of [data]. *)
Definition csv_row (item : value) : completion string :=
  match iterate item with
  | Throw e => Throw e
  | Normal fields =>
      let timestamp := index fields 0 in
      let open := index fields 1 in
      let high := index fields 2 in
      let low := index fields 3 in
      let close := index fields 4 in
      let volume := index fields 5 in
      let date := new_Date Date_parse timestamp in
      Normal (dquote +:+ formattedDate date +:+ dquote +:+ "," +:+
              ToString open +:+ "," +:+ ToString high +:+ "," +:+
              ToString low +:+ "," +:+ ToString close +:+ "," +:+
              ToString volume +:+ newline)
  end.

(** The [for (const item of data)] loop, appending to [csvContent]. *)
Fixpoint csv_rows (data : list value) (csvContent : string)
  : completion string :=
  match data with
  | [] => Normal csvContent
  | item :: data' =>
      match csv_row item with
      | Throw e => Throw e
      | Normal line => csv_rows data' (csvContent +:+ line)
      end
  end.

Definition csvContent (data : list value) : completion string :=
  csv_rows data header.

(** The [try] block of [writeDataToCSV]. *)
Definition writeDataToCSV_try (data : list value) (exchangeId symbol : string)
    (filePath : option string) (s : FS) : completion unit * FS :=
  let filePath := targetPath exchangeId symbol filePath in
  let dir := dirname fs filePath in
  let '(made, s1) :=
    if negb (existsSync fs dir s) then mkdirSync fs dir s else (Normal tt, s) in
  match made with
  | Throw e => (Throw e, s1)
  | Normal _ =>
      match csvContent data with
      | Throw e => (Throw e, s1)
      | Normal content => writeFileSync fs filePath content s1
      end
  end.

(** [writeDataToCSV(data, exchangeId, symbol, filePath?)]: the [catch]
    block logs the error and throws it again. *)
Definition writeDataToCSV (data : list value) (exchangeId symbol : string)
    (filePath : option string) (s : FS) : completion unit * FS :=
  match writeDataToCSV_try data exchangeId symbol filePath s with
  | (Throw error, s') => (Throw error, s')
  | completed => completed
  end.

End Writer.

Arguments FileSystem : clear implicits.

End Csv.

(** ** The pagination protocol on traces *)

Module Protocol.
Import JS Fetcher.

Section Traces.
Context {Market : Type}.

(** The requests of a trace are paced: the first one ([first]) comes at
    once, every later one right after a pause of 1000 ms, and nothing
    else happens. *)
Fixpoint paced (first : bool) (tr : list (event Market)) : bool :=
  match tr with
  | [] => true
  | FetchOHLCV _ _ _ _ _ :: tr' => first && paced false tr'
  | Delay ms :: FetchOHLCV _ _ _ _ _ :: tr' =>
      negb first && (ms =? 1000) && paced false tr'
  | _ => false
  end.

(** A page that ends the loop: it is empty, or its last entry has no
    timestamp, or it is shorter than the limit. *)
Definition exhausted (limit : number) (page : list value) : bool :=
  (length page =? 0)%nat
  || negb (bool_decide (is_Some (lastTimestamp page)))
  || length_lt (length page) limit.

(** No page but the last one ends the loop. *)
Fixpoint only_last_exhausted (limit : number) (pages : list (list value))
  : bool :=
  match pages with
  | [] => true
  | [_] => true
  | page :: pages' => negb (exhausted limit page) && only_last_exhausted limit pages'
  end.

(** The pages of the answered requests. *)
Definition pages (tr : list (event Market)) : list (list value) :=
  snd <$> exchanges tr.

(** What the outcome of the loop says about the last page: a loop that
    was left normally saw an exhausted page last, any other saw none. *)
Definition outcome_fits (limit : number) (r : outcome)
    (pages : list (list value)) : Prop :=
  match r with
  | Returned _ => exists page, last pages = Some page /\ exhausted limit page = true
  | _ => forall page, last pages = Some page -> exhausted limit page = false
  end.

End Traces.

Section Adapters.
Context {Market A : Type}.
Variable exchange : Exchange Market A.

(** An adapter that never signals exhaustion on [symbol]: whatever the
    cursor, it answers with a page that is full and ends in a timestamp
    with a valid date after it. *)
Definition never_exhausted (symbol : string) (limit : number) : Prop :=
  forall cursor a,
    exists page t a',
      fetchOHLCV exchange symbol "1d" cursor limit a = (Normal page, a') /\
      page <> [] /\ lastTimestamp page = Some t /\
      length_lt (length page) limit = false /\
      is_Some (TimeClip (add1 t)).

End Adapters.

(** An adapter that answers every request with the same page. *)
Definition endless (markets : gmap string unit) (page : list value)
  : Exchange unit unit :=
  {| loadMarkets a := (Normal markets, a);
     fetchOHLCV _ _ _ _ a := (Normal page, a) |}.

End Protocol.

(** ** The shape of the CSV text *)

Module Render.
Import JS Csv.

(** The lines of a file, one after the other. *)
Definition concat_lines (lines : list string) : string :=
  foldr String.append EmptyString lines.

(** The values array destructuring accepts (see [Csv.iterate]). *)
Definition iterable (item : value) : bool :=
  match item with
  | JArr _ | JStr _ => true
  | _ => false
  end.

(** A number between 0 and 99 in two decimal digits. *)
Definition two_digits (n : Z) : string :=
  digits (n / 10) +:+ digits (n mod 10).

(** The characters that structure a CSV record: the comma, the double
    quote and the newline; a string is plain when it has none of them. *)
Definition comma : Ascii.ascii := Ascii.ascii_of_nat 44.
Definition dquote_char : Ascii.ascii := Ascii.ascii_of_nat 34.
Definition newline_char : Ascii.ascii := Ascii.ascii_of_nat 10.

Definition structural (c : Ascii.ascii) : bool :=
  Ascii.eqb c comma || Ascii.eqb c dquote_char || Ascii.eqb c newline_char.

Fixpoint plain (s : string) : bool :=
  match s with
  | EmptyString => true
  | String c s' => negb (structural c) && plain s'
  end.

(** [check] holds of the [count] integers from [base] on. *)
Fixpoint all_from (count : positive) (check : Z -> bool) (base : Z) : bool :=
  match count with
  | xH => check base
  | xO half =>
      all_from half check base && all_from half check (base + Z.pos half)
  | xI half =>
      check base && all_from half check (base + 1)
      && all_from half check (base + 1 + Z.pos half)
  end.

End Render.

(** ** The configuration (src/modules/config.ts) *)

Module Config.
Import JS.

(** *** More of the language: [split] and [trim]

    Strings are taken in UTF-8, as the environment holds them. *)

(** [String.prototype.split(sep)] for a one-character separator. *)
Fixpoint split (sep : Ascii.ascii) (s : string) : list string :=
  match s with
  | EmptyString => [EmptyString]
  | String c s' =>
      if Ascii.eqb c sep then EmptyString :: split sep s'
      else match split sep s' with
           | piece :: pieces => String c piece :: pieces
           | [] => [String c EmptyString]
           end
  end.

(** The white space and line terminators of the language, by the bytes
    of their encoding: TAB, LF, VT, FF, CR and the space; U+00A0;
    U+1680, U+2000 to U+200A, U+2028, U+2029, U+202F, U+205F, U+3000 and
    U+FEFF. *)
Definition byte (c : Ascii.ascii) : nat := Ascii.nat_of_ascii c.

Definition white1 (a : Ascii.ascii) : bool :=
  ((9 <=? byte a) && (byte a <=? 13) || (byte a =? 32))%nat.

Definition white2 (a b : Ascii.ascii) : bool :=
  ((byte a =? 194) && (byte b =? 160))%nat.

Definition white3 (a b c : Ascii.ascii) : bool :=
  ((byte a =? 225) && (byte b =? 154) && (byte c =? 128)
   || (byte a =? 226) && (byte b =? 128)
      && ((128 <=? byte c) && (byte c <=? 138)
          || (byte c =? 168) || (byte c =? 169) || (byte c =? 175))
   || (byte a =? 226) && (byte b =? 129) && (byte c =? 159)
   || (byte a =? 227) && (byte b =? 128) && (byte c =? 128)
   || (byte a =? 239) && (byte b =? 187) && (byte c =? 191))%nat.

(** Drop the white space a list of bytes starts with; [w2] and [w3]
    recognise the characters of two and three bytes. *)
Fixpoint strip (w2 : Ascii.ascii -> Ascii.ascii -> bool)
    (w3 : Ascii.ascii -> Ascii.ascii -> Ascii.ascii -> bool)
    (l : list Ascii.ascii) : list Ascii.ascii :=
  match l with
  | [] => []
  | a :: l1 =>
      if white1 a then strip w2 w3 l1
      else match l1 with
           | b :: l2 =>
               if w2 a b then strip w2 w3 l2
               else match l2 with
                    | c :: l3 => if w3 a b c then strip w2 w3 l3 else l
                    | [] => l
                    end
           | [] => l
           end
  end.

(** The list starts with white space. *)
Definition starts_white (w2 : Ascii.ascii -> Ascii.ascii -> bool)
    (w3 : Ascii.ascii -> Ascii.ascii -> Ascii.ascii -> bool)
    (l : list Ascii.ascii) : bool :=
  match l with
  | [] => false
  | a :: l1 =>
      white1 a
      || match l1 with
         | [] => false
         | b :: l2 =>
             w2 a b
             || match l2 with
                | [] => false
                | c :: _ => w3 a b c
                end
         end
  end.

Definition trimStart (l : list Ascii.ascii) : list Ascii.ascii :=
  strip white2 white3 l.

(** The same from the other end: the bytes of a character come in
    reverse. *)
Definition trimEnd (l : list Ascii.ascii) : list Ascii.ascii :=
  reverse (strip (fun b a => white2 a b) (fun c b a => white3 a b c) (reverse l)).

(** [String.prototype.trim()] *)
Definition trim (s : string) : string :=
  String.string_of_list_ascii
    (trimEnd (trimStart (String.list_ascii_of_string s))).

(** *** [parseList] *)

(** The comma that separates the items. *)
Definition separator : Ascii.ascii := Ascii.ascii_of_nat 44.

Definition nonempty (item : string) : bool := (0 <? String.length item)%nat.

Definition parseList (value : option string) (defaultValue : list string)
  : list string :=
  match value with
  | None => defaultValue
  | Some value =>
      if negb (truthy (JStr value)) then defaultValue
      else List.filter nonempty (trim <$> split separator value)
  end.

(** *** The configuration object *)

(** The variables of the environment that the module reads. *)
Record Env := {
  PROXY_URL : option string;
  LOG_LEVEL : option string;
  NODE_ENV : option string;
  EXCHANGES : option string;
  SYMBOLS : option string
}.

Record RawConfig := {
  raw_proxyUrl : option string;
  raw_logLevel : option string;
  raw_nodeEnv : option string;
  raw_exchanges : list string;
  raw_symbols : list string
}.

Record Config := {
  proxyUrl : option string;
  logLevel : string;
  nodeEnv : string;
  exchanges : list string;
  symbols : list string
}.

(** [process.env.X || undefined] *)
Definition or_undefined (v : option string) : option string :=
  match v with
  | Some s => if truthy (JStr s) then Some s else None
  | None => None
  end.

Definition rawConfig (env : Env) : RawConfig :=
  {| raw_proxyUrl := or_undefined (PROXY_URL env);
     raw_logLevel := or_undefined (LOG_LEVEL env);
     raw_nodeEnv := or_undefined (NODE_ENV env);
     raw_exchanges := parseList (EXCHANGES env) ["okx"];
     raw_symbols := parseList (SYMBOLS env) ["ETH/USDT"] |}.

Definition logLevels : list string :=
  ["trace"; "debug"; "info"; "warn"; "error"; "fatal"].

Definition nodeEnvs : list string := ["development"; "production"; "test"].

(** A field [z.enum(options).default(fallback)]. *)
Definition enum_default (options : list string) (fallback : string)
    (v : option string) : option string :=
  match v with
  | None => Some fallback
  | Some s => if bool_decide (s ∈ options) then Some s else None
  end.

Section Schema.
(** The check of [z.string().url()]. *)
Variable is_url : string -> bool.

(** [ConfigSchema.parse]; [None] is the validation error it throws. *)
Definition ConfigSchema_parse (raw : RawConfig) : option Config :=
  match raw_proxyUrl raw with
  | Some url => if is_url url then Some tt else None
  | None => Some tt
  end ≫= fun _ =>
  enum_default logLevels "info" (raw_logLevel raw) ≫= fun level =>
  enum_default nodeEnvs "development" (raw_nodeEnv raw) ≫= fun node =>
  Some {| proxyUrl := raw_proxyUrl raw;
          logLevel := level;
          nodeEnv := node;
          exchanges := raw_exchanges raw;
          symbols := raw_symbols raw |}.

(** The module: the configuration it exports, if validation passes. *)
Definition config (env : Env) : option Config :=
  ConfigSchema_parse (rawConfig env).
End Schema.

End Config.

(** ** The main program and the constructor *)

Module App.
Import JS Fetcher Csv Config.

Section Main.
Context {Market A FS : Type}.
(** The environment of a run, the exchange interface and the file
    system (see [Csv] and [Fetcher]). *)
Variable LocalTZA : Z -> Z.
Variable Date_parse : string -> number.
Variable exchange : Exchange Market A.
Variable fs : FileSystem FS.

(** The adapter library: the identifiers of the exchanges it supports,
    and the construction of an instance from its configuration. *)
Record exchangeConfig := {
  enableRateLimit : bool;
  timeout : Z;
  httpProxy : option string
}.

Record Ccxt := {
  ccxt_exchanges : list string;
  ccxt_new : string -> exchangeConfig -> completion A
}.

Variable ccxt : Ccxt.
Variable config : Config.

Definition unsupported_exchange (exchangeId : string) : error :=
  Error "Error" ("Exchange " +:+ exchangeId +:+ " is not supported by ccxt").

(** [new DataFetcher(exchangeId)]: the exchange instance it holds. *)
Definition DataFetcher_new (exchangeId : string) : completion A :=
  let exchangeConfig :=
    {| enableRateLimit := true;
       timeout := 30000;
       httpProxy :=
         match proxyUrl config with
         | Some url => if truthy (JStr url) then Some url else None
         | None => None
         end |} in
  if bool_decide (exchangeId ∈ ccxt_exchanges ccxt)
  then ccxt_new ccxt exchangeId exchangeConfig
  else Throw (unsupported_exchange exchangeId).

(** What became of a symbol, and of an exchange. *)
Inductive symbol_result :=
| Written
| Failed (e : error).

Inductive exchange_result :=
| ExchangeFailed (e : error)
| Processed (results : list (string * symbol_result)).

(** The body of the loop over the symbols, with its [catch]: fetch,
    then write.  [None] is a fetch that does not finish within [fuel]
    iterations. *)
Definition process_symbol (fuel : nat) (exchangeId symbol : string)
    (a : A) (s : FS)
  : option (symbol_result * A * list (event Market) * FS) :=
  match fetchSymbolData exchange fuel symbol None None a with
  | (Unfinished, _, _) => None
  | (Raised e, a', tr) => Some (Failed e, a', tr, s)
  | (Returned data, a', tr) =>
      match writeDataToCSV LocalTZA Date_parse fs data exchangeId symbol None s with
      | (Throw e, s') => Some (Failed e, a', tr, s')
      | (Normal _, s') => Some (Written, a', tr, s')
      end
  end.

(** [for (const symbol of config.symbols)] *)
Fixpoint process_symbols (fuel : nat) (exchangeId : string)
    (symbols : list string) (a : A) (s : FS)
  : option (list (string * symbol_result) * list (event Market) * FS) :=
  match symbols with
  | [] => Some ([], [], s)
  | symbol :: symbols' =>
      '(result, a', tr, s') ← process_symbol fuel exchangeId symbol a s;
      '(results, tr', s'') ← process_symbols fuel exchangeId symbols' a' s';
      Some ((symbol, result) :: results, tr ++ tr', s'')
  end.

(** The body of the loop over the exchanges, with its [catch]. *)
Definition process_exchange (fuel : nat) (exchangeId : string) (s : FS)
  : option (exchange_result * list (event Market) * FS) :=
  match DataFetcher_new exchangeId with
  | Throw e => Some (ExchangeFailed e, [], s)
  | Normal a =>
      '(results, tr, s') ← process_symbols fuel exchangeId (symbols config) a s;
      Some (Processed results, tr, s')
  end.

(** [for (const exchangeId of config.exchanges)] *)
Fixpoint process_exchanges (fuel : nat) (exchangeIds : list string) (s : FS)
  : option (list (string * exchange_result) * list (event Market) * FS) :=
  match exchangeIds with
  | [] => Some ([], [], s)
  | exchangeId :: exchangeIds' =>
      '(result, tr, s') ← process_exchange fuel exchangeId s;
      '(results, tr', s'') ← process_exchanges fuel exchangeIds' s';
      Some ((exchangeId, result) :: results, tr ++ tr', s'')
  end.

(** [main()]: every statement of it that can throw sits in one of the
    two inner [try] blocks, so its outer [catch] is never entered. *)
Definition main (fuel : nat) (s : FS)
  : option (list (string * exchange_result) * list (event Market) * FS) :=
  process_exchanges fuel (exchanges config) s.

(** What the result of an exchange says: it failed with the error of
    the constructor, or an instance was made and every configured
    symbol has its result, in order. *)
Definition result_fits (exchangeId : string) (result : exchange_result) : Prop :=
  match result with
  | ExchangeFailed e => DataFetcher_new exchangeId = Throw e
  | Processed results =>
      (exists a, DataFetcher_new exchangeId = Normal a)
      /\ results.*1 = symbols config
  end.

End Main.

Arguments Ccxt : clear implicits.

(** *** Reading the trace and the results of a run *)

Definition is_load {Market} (ev : event Market) : bool :=
  match ev with
  | LoadMarkets _ => true
  | _ => false
  end.

(** The number of [loadMarkets] calls of a trace. *)
Definition market_loads {Market} (tr : list (event Market)) : nat :=
  length (List.filter is_load tr).

(** The exchanges for which an instance was made. *)
Definition is_processed (result : string * exchange_result) : bool :=
  match result.2 with
  | Processed _ => true
  | ExchangeFailed _ => false
  end.

(** *** A simulated world

    A file system in memory: the directories made and the files
    written so far, the latest first; the directory of a path is the
    text before its last slash. *)
Record disk := {
  dirs : list string;
  files : list (string * string)
}.

Fixpoint parent (path : string) : option string :=
  match path with
  | EmptyString => None
  | String c path' =>
      match parent path' with
      | Some dir => Some (String c dir)
      | None => if Ascii.eqb c slash then Some EmptyString else None
      end
  end.

Definition memory : FileSystem disk :=
  {| dirname path := default "." (parent path);
     existsSync dir s := bool_decide (dir ∈ dirs s);
     mkdirSync dir s := (Normal tt, {| dirs := dir :: dirs s; files := files s |});
     writeFileSync path content s :=
       (Normal tt, {| dirs := dirs s; files := (path, content) :: files s |}) |}.

Definition blank_disk : disk := {| dirs := []; files := [] |}.

(** An adapter library with two exchanges, and a configuration that
    names one of them, an exchange the library does not have, a symbol
    the exchange lists and one it does not. *)
Definition library : Ccxt unit :=
  {| ccxt_exchanges := ["okx"; "binance"];
     ccxt_new _ _ := Normal tt |}.

Definition two_by_two : Config :=
  {| proxyUrl := None;
     logLevel := "info";
     nodeEnv := "development";
     exchanges := ["okx"; "hyperion"];
     symbols := ["ETH/USDT"; "DOGE/USDT"] |}.

Definition one_candle : Exchange unit unit :=
  Protocol.endless okx_markets [candle time_2020_01_01].

End App.

(** ** Properties of the fetcher *)

Import JS Fetcher.

Section FetcherProperties.
Context {Market A : Type}.
Variable exchange : Exchange Market A.

Implicit Types (st : loop_state) (tr : list (event Market)) (a : A).

(** *** The loop and its runs *)

Lemma toISOString_Normal date u :
  toISOString date = Normal u -> is_Some date.
Proof. destruct date; [eauto | discriminate]. Qed.

Lemma toISOString_Throw date e :
  toISOString date = Throw e -> date = None /\ e = RangeError_invalid_time.
Proof. destruct date; [discriminate | by intros [= <-]]. Qed.

Lemma length_zero_nil {T} (l : list T) : (length l =? 0)%nat = true -> l = [].
Proof. by destruct l. Qed.

Lemma length_zero_cons {T} (l : list T) : (length l =? 0)%nat = false -> l <> [].
Proof. by destruct l. Qed.

Lemma pagination_run fuel symbol limit st a r a' tr :
  pagination exchange fuel symbol limit st a = (r, a', tr) ->
  loop_run symbol limit st r tr.
Proof.
  revert st a r a' tr.
  induction fuel as [|fuel IH]; intros st a r a' tr; cbn [pagination].
  { intros [= <- <- <-]. constructor. }
  unfold loop_body.
  fold (pause (Market := Market) st).
  destruct (toISOString (TimeClip (currentSince st))) as [u|e] eqn:Hdate.
  2:{ apply toISOString_Throw in Hdate as [Hdate ->].
      intros [= <- <- <-]. by constructor. }
  apply toISOString_Normal in Hdate.
  destruct (fetchOHLCV exchange symbol "1d" (currentSince st) limit a)
    as [[ohlcv|e] a1] eqn:Hfetch.
  2:{ intros [= <- <- <-]. by constructor. }
  destruct (length ohlcv =? 0)%nat eqn:Hlen.
  { apply length_zero_nil in Hlen as ->. cbn [allData].
    intros [= <- <- <-].
    rewrite <- (app_nil_r (allData st)) at 1. constructor; auto. }
  apply length_zero_cons in Hlen.
  destruct (lastTimestamp ohlcv) as [t|] eqn:Hlast.
  2:{ cbn [allData]. intros [= <- <- <-]. constructor; auto. }
  destruct (length_lt (length ohlcv) limit) eqn:Hshort.
  { cbn [allData]. intros [= <- <- <-]. constructor; auto. }
  destruct (pagination exchange fuel symbol limit _ a1)
    as [[r' a2] tr'] eqn:Hrest.
  intros [= <- <- <-].
  apply IH in Hrest.
  rewrite <- app_assoc. cbn [app].
  by eapply run_next.
Qed.

Lemma fetchSymbolData_run fuel symbol since limit a r a' tr :
  fetchSymbolData exchange fuel symbol since limit a = (r, a', tr) ->
  fetch_run symbol since (default (Int 100) limit) r tr.
Proof.
  unfold fetchSymbolData, fetchSymbolData_try, rethrow.
  destruct (loadMarkets exchange a) as [[markets|e] a1].
  2:{ intros [= <- <- <-]. constructor. }
  destruct (resolveSymbol markets symbol) as [resolved|] eqn:Hres.
  2:{ intros [= <- <- <-]. by constructor. }
  destruct (toISOString (TimeClip (startDate since))) as [u|e] eqn:Hdate.
  2:{ apply toISOString_Throw in Hdate as [Hdate ->].
      intros [= <- <- <-]. by econstructor. }
  apply toISOString_Normal in Hdate.
  destruct (pagination exchange fuel resolved _ _ a1) as [[r' a2] tr'] eqn:Hloop.
  apply pagination_run in Hloop.
  assert (fetch_run symbol since (default (Int 100) limit) r'
            (LoadMarkets (Normal markets) :: tr')) by by econstructor.
  destruct r'; intros [= <- <- <-]; assumption.
Qed.

(** *** Symbol resolution *)





Lemma elem_of_pause (ev : event Market) st : ev ∈ pause st -> ev = Delay 1000.
Proof.
  unfold pause. destruct (1 <? _)%nat.
  - apply list_elem_of_singleton.
  - intros []%elem_of_nil.
Qed.



(** *** Single iterations *)

Lemma pagination_break fuel symbol limit st a ohlcv a1 :
  is_Some (TimeClip (currentSince st)) ->
  fetchOHLCV exchange symbol "1d" (currentSince st) limit a = (Normal ohlcv, a1) ->
  ohlcv = [] \/ lastTimestamp ohlcv = None \/
    length_lt (length ohlcv) limit = true ->
  pagination exchange (S fuel) symbol limit st a =
    (Returned (allData st ++ ohlcv), a1,
     pause st ++ [FetchOHLCV symbol "1d" (currentSince st) limit (Normal ohlcv)]).
Proof.
  intros [tv Htv] Hfetch Hstop. cbn [pagination]. unfold loop_body.
  fold (pause (Market := Market) st).
  rewrite Htv, Hfetch. cbn [toISOString].
  destruct (length ohlcv =? 0)%nat eqn:Hlen.
  { apply length_zero_nil in Hlen as ->. cbn [allData]. by rewrite app_nil_r. }
  apply length_zero_cons in Hlen.
  destruct Hstop as [->|[Hlast|Hshort]]; [done| |].
  - by rewrite Hlast.
  - rewrite Hshort. by destruct (lastTimestamp ohlcv).
Qed.

Lemma pagination_next fuel symbol limit st a ohlcv t a1 :
  is_Some (TimeClip (currentSince st)) ->
  fetchOHLCV exchange symbol "1d" (currentSince st) limit a = (Normal ohlcv, a1) ->
  ohlcv <> [] ->
  lastTimestamp ohlcv = Some t ->
  length_lt (length ohlcv) limit = false ->
  pagination exchange (S fuel) symbol limit st a =
    let '(r, a2, tr) :=
      pagination exchange fuel symbol limit
        (LoopState (allData st ++ ohlcv) (add1 t) (S (totalRequests st))) a1 in
    (r, a2,
     pause st ++
     FetchOHLCV symbol "1d" (currentSince st) limit (Normal ohlcv) :: tr).
Proof.
  intros [tv Htv] Hfetch Hne Hlast Hfull. cbn [pagination]. unfold loop_body.
  fold (pause (Market := Market) st).
  rewrite Htv, Hfetch. cbn [toISOString].
  destruct (length ohlcv =? 0)%nat eqn:Hlen.
  { by apply length_zero_nil in Hlen. }
  rewrite Hlast, Hfull.
  destruct (pagination _ _ _ _ _ _) as [[r a2] tr].
  by rewrite <- app_assoc.
Qed.

Lemma pagination_throw fuel symbol limit st a e a1 :
  is_Some (TimeClip (currentSince st)) ->
  fetchOHLCV exchange symbol "1d" (currentSince st) limit a = (Throw e, a1) ->
  pagination exchange (S fuel) symbol limit st a =
    (Raised e, a1,
     pause st ++ [FetchOHLCV symbol "1d" (currentSince st) limit (Throw e)]).
Proof.
  intros [tv Htv] Hfetch. cbn [pagination]. unfold loop_body.
  fold (pause (Market := Market) st).
  by rewrite Htv, Hfetch.
Qed.

Lemma fetchSymbolData_paginates fuel symbol since limit a markets a1 resolved :
  loadMarkets exchange a = (Normal markets, a1) ->
  resolveSymbol markets symbol = Some resolved ->
  is_Some (TimeClip (startDate since)) ->
  fetchSymbolData exchange fuel symbol since limit a =
    let '(r, a2, tr) :=
      pagination exchange fuel resolved (default (Int 100) limit)
        (LoopState [] (startDate since) 0) a1 in
    (r, a2, LoadMarkets (Normal markets) :: tr).
Proof.
  intros Hload Hres [tv Htv].
  unfold fetchSymbolData, fetchSymbolData_try, rethrow.
  rewrite Hload, Hres, Htv. cbn [toISOString].
  destruct (pagination _ _ _ _ _ _) as [[r a2] tr].
  by destruct r.
Qed.

(** *** Termination on short, empty and missing pages *)

(** C1. An adapter that answers the three successive requests (page
    size limit 100) with pages of 100, 100 and 37 candles: the run
    issues exactly these three requests, returns the 237 candles, and
    ends after the third page because it is shorter than the limit.
    The symbol is supported, the start time is a valid date, and the
    two full pages end in a candle whose timestamp is a number with a
    valid date after it. *)
Theorem three_pages_237
    fuel symbol since limit a markets a1 resolved p1 a2 t1 p2 a3 t2 p3 a4 :
  (3 <= fuel)%nat ->
  default (Int 100) limit = Int 100 ->
  loadMarkets exchange a = (Normal markets, a1) ->
  resolveSymbol markets symbol = Some resolved ->
  is_Some (TimeClip (startDate since)) ->
  fetchOHLCV exchange resolved "1d" (startDate since) (Int 100) a1
    = (Normal p1, a2) ->
  length p1 = 100%nat ->
  lastTimestamp p1 = Some t1 -> is_Some (TimeClip (add1 t1)) ->
  fetchOHLCV exchange resolved "1d" (add1 t1) (Int 100) a2 = (Normal p2, a3) ->
  length p2 = 100%nat ->
  lastTimestamp p2 = Some t2 -> is_Some (TimeClip (add1 t2)) ->
  fetchOHLCV exchange resolved "1d" (add1 t2) (Int 100) a3 = (Normal p3, a4) ->
  length p3 = 37%nat ->
  let tr :=
    [LoadMarkets (Normal markets);
     FetchOHLCV resolved "1d" (startDate since) (Int 100) (Normal p1);
     Delay 1000;
     FetchOHLCV resolved "1d" (add1 t1) (Int 100) (Normal p2);
     Delay 1000;
     FetchOHLCV resolved "1d" (add1 t2) (Int 100) (Normal p3)] in
  fetchSymbolData exchange fuel symbol since limit a
    = (Returned (p1 ++ p2 ++ p3), a4, tr) /\
  request_count tr = 3%nat /\
  length (p1 ++ p2 ++ p3) = 237%nat /\
  length_lt (length p3) (Int 100) = true.
Proof.
  intros Hfuel Hlimit Hload Hres Hstart H1 L1 T1 V1 H2 L2 T2 V2 H3 L3 tr.
  destruct fuel as [|[|[|fuel]]]; try lia.
  assert (length_lt (length p1) (Int 100) = false) as F1 by by rewrite L1.
  assert (length_lt (length p2) (Int 100) = false) as F2 by by rewrite L2.
  assert (length_lt (length p3) (Int 100) = true) as F3 by by rewrite L3.
  repeat split; [| |done].
  - rewrite (fetchSymbolData_paginates _ _ _ _ _ _ _ _ Hload Hres Hstart), Hlimit.
    rewrite (pagination_next _ _ _ _ _ p1 t1 a2); cbn [currentSince allData];
      [|done|done|by destruct p1|done|done].
    rewrite (pagination_next _ _ _ _ _ p2 t2 a3); cbn [currentSince allData];
      [|done|done|by destruct p2|done|done].
    rewrite (pagination_break _ _ _ _ _ p3 a4); cbn [currentSince allData];
      [|done|done|auto].
    by rewrite <- app_assoc.
  - rewrite !length_app. lia.
Qed.

(** C3. An adapter whose first page is empty: the run issues exactly
    one request and returns the empty series, without raising.  The
    symbol is supported and the start time is a valid date. *)
Theorem empty_first_page fuel symbol since limit a markets a1 resolved a2 :
  (1 <= fuel)%nat ->
  loadMarkets exchange a = (Normal markets, a1) ->
  resolveSymbol markets symbol = Some resolved ->
  is_Some (TimeClip (startDate since)) ->
  fetchOHLCV exchange resolved "1d" (startDate since)
    (default (Int 100) limit) a1 = (Normal [], a2) ->
  let tr :=
    [LoadMarkets (Normal markets);
     FetchOHLCV resolved "1d" (startDate since) (default (Int 100) limit)
       (Normal [])] in
  fetchSymbolData exchange fuel symbol since limit a = (Returned [], a2, tr) /\
  request_count tr = 1%nat.
Proof.
  intros Hfuel Hload Hres Hstart Hfetch tr.
  destruct fuel as [|fuel]; [lia|].
  split; [|done].
  rewrite (fetchSymbolData_paginates _ _ _ _ _ _ _ _ Hload Hres Hstart).
  by rewrite (pagination_break _ _ _ _ _ [] a2); cbn [currentSince]; auto.
Qed.


(** *** Traces *)

Lemma exchanges_app tr1 tr2 :
  exchanges (tr1 ++ tr2) = exchanges tr1 ++ exchanges tr2.
Proof.
  induction tr1 as [|ev tr1 IH]; [done|].
  destruct ev as [| |s tf c l [page|e]]; cbn; by rewrite ?IH.
Qed.

Lemma exchanges_pause st : exchanges (pause (Market := Market) st) = [].
Proof. unfold pause. by destruct (1 <? _)%nat. Qed.

Lemma fetched_iteration st s tf c l page tr :
  fetched (pause st ++ FetchOHLCV s tf c l (Normal page) :: tr)
  = page ++ fetched tr.
Proof. unfold fetched. by rewrite exchanges_app, exchanges_pause. Qed.

Lemma fetched_pause st : fetched (pause (Market := Market) st) = [].
Proof. unfold fetched. by rewrite exchanges_pause. Qed.

(** Where an adapter call sits in the trace of an iteration and what
    follows it: it is the request of the iteration, or it comes later. *)
Lemma iteration_split st (ev0 ev : event Market) tr tr1 tr2 :
  pause st ++ ev0 :: tr = tr1 ++ ev :: tr2 ->
  (forall ms, ev <> Delay ms) ->
  (tr1 = pause st /\ ev = ev0 /\ tr2 = tr) \/
  (exists tr1', tr1 = pause st ++ ev0 :: tr1' /\ tr = tr1' ++ ev :: tr2).
Proof.
  intros Heq Hev. unfold pause in *.
  destruct (1 <? _)%nat; cbn [app] in *.
  - destruct tr1 as [|x tr1]; injection Heq as Hx Heq; [by destruct (Hev 1000)|].
    destruct tr1 as [|y tr1]; injection Heq as Hy Heq; subst; eauto.
  - destruct tr1 as [|y tr1]; injection Heq as Hy Heq; subst; eauto.
Qed.

Lemma lastTimestamp_None ohlcv :
  lacks_timestamp (index ohlcv (length ohlcv - 1)) -> lastTimestamp ohlcv = None.
Proof.
  unfold lastTimestamp, lacks_timestamp.
  destruct (index ohlcv (length ohlcv - 1)) as [| | | | |[|first rest]];
    cbn; try done.
  1-3: by intros _; rewrite !andb_false_r.
  intros [?|[?|[?|(? & ? & [= <- <-] & Hty)]]]; try done.
  by destruct first.
Qed.

Lemma lastTimestamp_lacks ohlcv :
  lastTimestamp ohlcv = None -> lacks_timestamp (index ohlcv (length ohlcv - 1)).
Proof.
  unfold lastTimestamp, lacks_timestamp.
  destruct (index ohlcv (length ohlcv - 1)) as [| |b|x|s|[|first rest]];
    cbn; auto.
  destruct first; try done; intros _; do 3 right; eauto.
Qed.

(** *** The data-integrity stop *)

Lemma loop_run_invalid_last symbol limit st r tr :
  loop_run symbol limit st r tr ->
  forall tr1 s tf c l p tr2,
    tr = tr1 ++ FetchOHLCV s tf c l (Normal p) :: tr2 ->
    lastTimestamp p = None ->
    tr2 = [] /\ r = Returned (allData st ++ fetched tr1 ++ p).
Proof.
  induction 1 as [| | st e _ | st ohlcv _ Hstop | st ohlcv t r tr _ _ Hlast _ _ IH];
    intros tr1 s tf c l p tr2 Heq Hnone.
  - by destruct tr1.
  - by destruct tr1.
  - apply iteration_split in Heq as [(_ & [=] & _)|(tr1' & _ & Heq)]; [|done].
    by destruct tr1'.
  - apply iteration_split in Heq as [(-> & [= _ _ _ _ ->] & ->)|(tr1' & _ & Heq)];
      [| |done].
    + by rewrite fetched_pause.
    + by destruct tr1'.
  - apply iteration_split in Heq as [(_ & [= _ _ _ _ ->] & _)|(tr1' & -> & ->)];
      [| |done].
    + congruence.
    + destruct (IH _ _ _ _ _ _ _ eq_refl Hnone) as [-> ->].
      split; [done|]. cbn [allData].
      by rewrite fetched_iteration, <- !app_assoc.
Qed.

(** C6. A page whose last entry lacks a valid numeric timestamp (the
    entry is missing, not an array, empty, or starts with something
    that is not a number) ends the run at once: its request is the last
    event, nothing is raised, and the result is everything fetched up
    to and including that very page. *)
Theorem invalid_last_timestamp_stops fuel symbol since limit a r a' tr
    tr1 s tf c l p tr2 :
  fetchSymbolData exchange fuel symbol since limit a = (r, a', tr) ->
  tr = tr1 ++ FetchOHLCV s tf c l (Normal p) :: tr2 ->
  lacks_timestamp (index p (length p - 1)) ->
  tr2 = [] /\ r = Returned (fetched tr1 ++ p).
Proof.
  intros Hrun Heq Hlacks%lastTimestamp_None.
  apply fetchSymbolData_run in Hrun.
  inversion Hrun as [| m Hnone | m resolved Hres | m resolved r0 tr0 Hres _ Hloop];
    subst r.
  - destruct tr1 as [|? [|]]; simplify_eq.
  - destruct tr1 as [|? [|]]; simplify_eq.
  - destruct tr1 as [|? [|]]; simplify_eq.
  - destruct tr1 as [|ev tr1]; cbn [app] in *; simplify_eq.
    exact (loop_run_invalid_last _ _ _ _ _ Hloop _ _ _ _ _ _ _ eq_refl Hlacks).
Qed.

(** *** Errors *)

Lemma thrown_not_Delay (ev : event Market) e :
  thrown ev = Some e -> forall ms, ev <> Delay ms.
Proof. by intros Hev ms ->. Qed.

Lemma loop_run_throw_last symbol limit st r tr :
  loop_run symbol limit st r tr ->
  forall tr1 ev tr2 e,
    tr = tr1 ++ ev :: tr2 -> thrown ev = Some e ->
    tr2 = [] /\ r = Raised e.
Proof.
  induction 1 as [| | st e0 _ | st ohlcv _ Hstop | st ohlcv t r tr _ _ Hlast _ _ IH];
    intros tr1 ev tr2 e Heq Hev;
    pose proof (thrown_not_Delay _ _ Hev) as Hnd.
  - by destruct tr1.
  - by destruct tr1.
  - apply iteration_split in Heq as [(_ & -> & ->)|(tr1' & _ & Heq)]; [| |done].
    + by injection Hev as ->.
    + by destruct tr1'.
  - apply iteration_split in Heq as [(_ & -> & _)|(tr1' & _ & Heq)]; [| |done].
    + done.
    + by destruct tr1'.
  - apply iteration_split in Heq as [(_ & -> & _)|(tr1' & _ & ->)]; [| |done].
    + done.
    + by eapply IH.
Qed.

Lemma loop_run_raised symbol limit st r tr :
  loop_run symbol limit st r tr ->
  is_Some (TimeClip (currentSince st)) ->
  (forall x t, x ∈ exchanges tr -> lastTimestamp x.2 = Some t ->
               is_Some (TimeClip (add1 t))) ->
  forall e, r = Raised e ->
  exists tr1 ev, tr = tr1 ++ [ev] /\ thrown ev = Some e.
Proof.
  induction 1 as [| st Hinv | st e0 _ | st ohlcv _ Hstop
                 | st ohlcv t r tr _ _ Hlast _ _ IH];
    intros Hvalid Hpages e Hr.
  - done.
  - rewrite Hinv in Hvalid. by destruct Hvalid.
  - injection Hr as ->. eauto.
  - done.
  - destruct IH with (e := e) as (tr1 & ev & -> & Hev); [| |done|].
    + apply (Hpages (currentSince st, ohlcv)); [|done].
      rewrite exchanges_app, exchanges_pause. cbn. apply list_elem_of_here.
    + intros x t' Hx. apply Hpages.
      rewrite exchanges_app, exchanges_pause. cbn. by apply list_elem_of_further.
    + exists (pause st ++
              FetchOHLCV symbol "1d" (currentSince st) limit (Normal ohlcv) :: tr1), ev.
      by rewrite <- app_assoc.
Qed.

(** C7 (amended). An error thrown by the adapter, in [loadMarkets] or
    in a page fetch, is raised again unchanged: the throwing call is
    the last event of the run (no retry) and the run raises that very
    error (no substitution).  Conversely, when the cursors of the run
    are valid dates, the run raises only an error the adapter threw in
    its last call. *)
Theorem adapter_errors_propagate fuel symbol since limit a r a' tr :
  fetchSymbolData exchange fuel symbol since limit a = (r, a', tr) ->
  (forall tr1 ev tr2 e,
      tr = tr1 ++ ev :: tr2 -> thrown ev = Some e ->
      tr2 = [] /\ r = Raised e) /\
  (cursors_valid (startDate since) tr ->
   forall e, r = Raised e ->
   exists tr1 ev, tr = tr1 ++ [ev] /\ thrown ev = Some e).
Proof.
  intros Hrun%fetchSymbolData_run.
  inversion Hrun as [e0 | m Hnone | m resolved Hres Hinv
                    | m resolved r0 tr0 Hres Hstart Hloop]; subst.
  - split.
    + by intros [|x [|y tr1]] ev tr2 e1 Heq Hev; simplify_eq/=.
    + intros _ e1 [= <-]. by exists [], (LoadMarkets (Throw e0)).
  - split; [|done].
    intros [|x [|y tr1]] ev tr2 e1 Heq Hev; simplify_eq/=.
  - split.
    + intros [|x [|y tr1]] ev tr2 e1 Heq Hev; simplify_eq/=.
    + intros [Hvalid _]. rewrite Hinv in Hvalid. by destruct Hvalid.
  - split.
    + intros [|ev0 tr1] ev tr2 e1 Heq Hev; simplify_eq/=.
      exact (loop_run_throw_last _ _ _ _ _ Hloop _ _ _ _ eq_refl Hev).
    + intros [_ Hpages] e1 Hr.
      destruct (loop_run_raised _ _ _ _ _ Hloop Hstart Hpages e1 Hr)
        as (tr1 & ev & -> & Hev).
      by exists (LoadMarkets (Normal m) :: tr1), ev.
Qed.

(** *** Cursors and order *)

Lemma to_Z_add1 t z : to_Z t = Some z -> to_Z (add1 t) = Some (z + 1).
Proof.
  destruct t as [m e| | |]; try done. cbn [to_Z add1].
  destruct (0 <=? e) eqn:He.
  - intros [= <-]. cbn. by rewrite Z.mul_1_r.
  - assert (0 < 10 ^ (- e)) by (apply Z.pow_pos_nonneg; lia).
    destruct (m mod 10 ^ (- e) =? 0) eqn:Hmod; [|done].
    intros [= <-]. cbn [to_Z]. rewrite He.
    replace (m + 10 ^ (- e)) with (m + 1 * 10 ^ (- e)) by lia.
    rewrite Z_mod_plus_full, Hmod, Z_div_plus_full by lia. done.
Qed.

Lemma ascending_from_weaken lo hi entries :
  lo <= hi -> ascending_from hi entries = true ->
  ascending_from lo entries = true.
Proof.
  destruct entries as [|entry entries]; [done|]. cbn.
  destruct (entry_time entry); [|done].
  intros Hle [Hhi ->]%andb_true_iff. rewrite andb_true_r. lia.
Qed.

Lemma ascending_from_app lo hi l1 l2 :
  ascending_from lo l1 = true -> last_time lo l1 <= hi ->
  ascending_from hi l2 = true ->
  ascending_from lo (l1 ++ l2) = true.
Proof.
  revert lo. induction l1 as [|entry l1 IH]; intros lo; cbn.
  - intros _ Hle. by apply ascending_from_weaken.
  - destruct (entry_time entry) as [t|]; [|done].
    intros [-> H1]%andb_true_iff Hle H2. cbn. by apply IH.
Qed.

Lemma last_time_app lo hi l1 l2 :
  ascending_from lo l1 = true -> l2 <> [] -> ascending_from hi l2 = true ->
  last_time lo (l1 ++ l2) = last_time hi l2.
Proof.
  revert lo. induction l1 as [|entry l1 IH]; intros lo; cbn.
  - intros _ Hne. destruct l2 as [|entry l2]; [done|]. cbn.
    by destruct (entry_time entry).
  - destruct (entry_time entry) as [t|]; [|done].
    intros [_ H1]%andb_true_iff Hne H2. by apply IH.
Qed.

Lemma index_last (ohlcv : list value) :
  index ohlcv (length ohlcv - 1) = default JUndefined (last ohlcv).
Proof.
  unfold index. rewrite last_lookup. do 2 f_equal. lia.
Qed.

Lemma lastTimestamp_cons entry ohlcv :
  ohlcv <> [] -> lastTimestamp (entry :: ohlcv) = lastTimestamp ohlcv.
Proof.
  intros Hne. unfold lastTimestamp. rewrite !index_last.
  by destruct ohlcv.
Qed.

Lemma lastTimestamp_last_time lo ohlcv t :
  ohlcv <> [] -> ascending_from lo ohlcv = true ->
  lastTimestamp ohlcv = Some t -> to_Z t = Some (last_time lo ohlcv).
Proof.
  revert lo. induction ohlcv as [|entry ohlcv IH]; intros lo Hne; [done|].
  cbn [ascending_from last_time].
  destruct (entry_time entry) as [te|] eqn:Hte; [|done].
  intros [_ Hasc]%andb_true_iff.
  destruct ohlcv as [|entry' ohlcv].
  - unfold lastTimestamp. cbn.
    destruct entry as [| | | | |[|[| | |x| |] rest]]; try done.
    cbn. by intros [= <-].
  - rewrite lastTimestamp_cons by done. by apply IH.
Qed.

Lemma loop_run_cursor_chain symbol limit st r tr :
  loop_run symbol limit st r tr ->
  cursor_chain (currentSince st) (exchanges tr).
Proof.
  induction 1 as [| | st e _ | st ohlcv _ _ | st ohlcv t r tr _ _ Hlast _ _ IH];
    rewrite ?exchanges_app, ?exchanges_pause; cbn; eauto.
Qed.

Lemma loop_run_data symbol limit st r tr :
  loop_run symbol limit st r tr ->
  forall data, r = Returned data -> data = allData st ++ fetched tr.
Proof.
  induction 1 as [| | st e _ | st ohlcv _ _ | st ohlcv t r tr _ _ Hlast _ _ IH];
    intros data Hr; try done.
  - injection Hr as <-. rewrite fetched_iteration. cbn. by rewrite app_nil_r.
  - rewrite (IH _ Hr), fetched_iteration. cbn [allData]. by rewrite app_assoc.
Qed.

Lemma loop_run_ascending symbol limit st r tr :
  loop_run symbol limit st r tr ->
  forall z0 zc,
    to_Z (currentSince st) = Some zc ->
    ascending_from z0 (allData st) = true ->
    last_time z0 (allData st) <= zc ->
    forallb page_in_order (exchanges tr) = true ->
    ascending_from z0 (allData st ++ fetched tr) = true.
Proof.
  induction 1 as [| | st e _ | st ohlcv _ _ | st ohlcv t r tr _ Hne Hlast _ _ IH];
    intros z0 zc Hcur Hasc Hle Hpages.
  - by rewrite app_nil_r.
  - by rewrite app_nil_r.
  - unfold fetched. rewrite exchanges_app, exchanges_pause. cbn.
    by rewrite app_nil_r.
  - rewrite exchanges_app, exchanges_pause in Hpages. cbn in Hpages.
    unfold page_in_order in Hpages. cbn in Hpages.
    rewrite Hcur, andb_true_r in Hpages.
    rewrite fetched_iteration. cbn. rewrite app_nil_r.
    by eapply ascending_from_app.
  - rewrite exchanges_app, exchanges_pause in Hpages. cbn in Hpages.
    apply andb_true_iff in Hpages as [Hpage Hpages].
    unfold page_in_order in Hpage. cbn in Hpage. rewrite Hcur in Hpage.
    pose proof (lastTimestamp_last_time _ _ _ Hne Hpage Hlast) as Ht.
    rewrite fetched_iteration, app_assoc.
    apply (IH z0 (last_time zc ohlcv + 1)); cbn [currentSince allData]; try done.
    + by apply to_Z_add1.
    + by eapply ascending_from_app.
    + rewrite (last_time_app z0 zc) by done. lia.
Qed.

End FetcherProperties.

(** *** The properties at work on the simulated adapter *)

Lemma three_pages_237_witness :
  exists tr,
    fetchSymbolData (scripted okx_markets) 3 "ETH/USDT" None None three_pages
      = (Returned (page1 ++ page2 ++ page3), [], tr) /\
    request_count tr = 3%nat /\
    length (page1 ++ page2 ++ page3) = 237%nat.
Proof.
  eexists.
  refine (let H := three_pages_237 (scripted okx_markets) 3 "ETH/USDT" None None
                     three_pages okx_markets three_pages "ETH-USDT"
                     page1 [Normal page2; Normal page3]
                     (Int (time_2020_01_01 + 99 * msPerDay))
                     page2 [Normal page3]
                     (Int (time_2020_01_01 + 199 * msPerDay))
                     page3 [] _ _ _ _ _ _ _ _ _ _ _ _ _ _ _ in
          conj (proj1 H) (conj (proj1 (proj2 H)) (proj1 (proj2 (proj2 H)))));
    try (vm_compute; reflexivity); try (vm_compute; lia);
    try (eexists; vm_compute; reflexivity).
Defined.

Lemma empty_first_page_witness :
  fetchSymbolData (scripted okx_markets) 1 "ETH/USDT" None None []
  = (Returned [], [],
     [LoadMarkets (Normal okx_markets);
      FetchOHLCV "ETH-USDT" "1d" (Int time_2020_01_01) (Int 100) (Normal [])]).
Proof.
  refine (proj1 (empty_first_page (scripted okx_markets) 1 "ETH/USDT" None None
                   [] okx_markets [] "ETH-USDT" [] _ _ _ _ _)).
  - lia.
  - reflexivity.
  - vm_compute. reflexivity.
  - eexists. vm_compute. reflexivity.
  - reflexivity.
Defined.



Lemma invalid_last_timestamp_stops_witness :
  (fetchSymbolData (scripted okx_markets) 5 "ETH/USDT" None (Some (Int 2))
     broken_script).1.1
  = Returned (daily time_2020_01_01 2 ++ broken_page).
Proof.
  destruct (fetchSymbolData (scripted okx_markets) 5 "ETH/USDT" None
              (Some (Int 2)) broken_script) as [[r a'] tr] eqn:Hrun.
  refine (proj2 (invalid_last_timestamp_stops (scripted okx_markets)
                   _ _ _ _ _ _ _ _
                   [LoadMarkets (Normal okx_markets);
                    FetchOHLCV "ETH-USDT" "1d" (Int time_2020_01_01) (Int 2)
                      (Normal (daily time_2020_01_01 2));
                    Delay 1000]
                   "ETH-USDT" "1d" (Int (time_2020_01_01 + msPerDay + 1)) (Int 2)
                   broken_page [] Hrun _ _)).
  - injection Hrun as _ _ <-. vm_compute. reflexivity.
  - right. right. left. reflexivity.
Defined.

Lemma adapter_errors_propagate_witness :
  (fetchSymbolData (scripted okx_markets) 5 "ETH/USDT" None (Some (Int 2))
     failing_script).1.1
  = Raised timeout_error.
Proof.
  destruct (fetchSymbolData (scripted okx_markets) 5 "ETH/USDT" None
              (Some (Int 2)) failing_script) as [[r a'] tr] eqn:Hrun.
  refine (proj2 (proj1 (adapter_errors_propagate (scripted okx_markets)
                          _ _ _ _ _ _ _ _ Hrun)
                   [LoadMarkets (Normal okx_markets);
                    FetchOHLCV "ETH-USDT" "1d" (Int time_2020_01_01) (Int 2)
                      (Normal (daily time_2020_01_01 2));
                    Delay 1000]
                   (FetchOHLCV "ETH-USDT" "1d"
                      (Int (time_2020_01_01 + msPerDay + 1)) (Int 2)
                      (Throw timeout_error))
                   [] timeout_error _ _)).
  - injection Hrun as _ _ <-. vm_compute. reflexivity.
  - reflexivity.
Defined.

(** C7, as stated, fails: a start time outside the range of dates makes
    the run raise a [RangeError] (from formatting the start date for the
    log) although no call of the adapter threw. *)
Lemma raises_without_adapter_error :
  let '(r, _, tr) :=
    fetchSymbolData (scripted okx_markets) 5 "ETH/USDT" (Some (Fin 1 16)) None
      three_pages in
  r = Raised RangeError_invalid_time /\
  ~ adapter_raised tr /\
  ~ ((exists e, r = Raised e) <-> adapter_raised tr).
Proof.
  assert (fetchSymbolData (scripted okx_markets) 5 "ETH/USDT" (Some (Fin 1 16))
            None three_pages
          = (Raised RangeError_invalid_time, three_pages,
             [LoadMarkets (Normal okx_markets)])) as -> by (vm_compute; reflexivity).
  assert (~ adapter_raised [LoadMarkets (Normal okx_markets)]) as Hnone.
  { intros (ev & e & Hin & Hev). apply list_elem_of_singleton in Hin as ->.
    discriminate. }
  split; [reflexivity|]. split; [exact Hnone|].
  intros [Hiff _]. apply Hnone, Hiff. eauto.
Qed.

(** ** Properties of the CSV writer *)

Import Csv.

Lemma add1_Int z : add1 (Int z) = Int (z + 1).
Proof. unfold Int. cbn. f_equal. lia. Qed.

(** The date of a line is the civil date of the local time. *)
Lemma formattedDate_civil (tz : Z -> Z) t :
  formattedDate tz (Some t) =
    let '(y, m, d) := civil (Day (t + tz t)) in
    number_to_string (Int y) +:+ "-" +:+
    padStart 2 "0" (number_to_string (Int m)) +:+ "-" +:+
    padStart 2 "0" (number_to_string (Int d)).
Proof.
  unfold formattedDate, getFullYear, getMonth, getDate, LocalTime,
    YearFromTime, MonthFromTime, DateFromTime.
  rewrite add1_Int.
  destruct (civil (Day (t + tz t))) as [[y m] d]. cbn [fst snd].
  by replace (m - 1 + 1) with m by lia.
Qed.


(** C10. For the empty series the content is the header line alone,
    and nothing is raised on the way: [writeDataToCSV] is then exactly
    the creation of the directory when it is missing, and the write of
    that one line to the target path. *)
Theorem empty_series_header_only :
  (forall tz parse,
      csvContent tz parse []
      = Normal ("timestamp,open,high,low,close,volume" +:+ newline)) /\
  (forall tz parse (FS : Type) (fs : FileSystem FS) exchangeId symbol filePath s,
      let path := targetPath exchangeId symbol filePath in
      let content := "timestamp,open,high,low,close,volume" +:+ newline in
      writeDataToCSV tz parse fs [] exchangeId symbol filePath s =
        if existsSync fs (dirname fs path) s then writeFileSync fs path content s
        else match mkdirSync fs (dirname fs path) s with
             | (Normal _, s1) => writeFileSync fs path content s1
             | (Throw e, s1) => (Throw e, s1)
             end).
Proof.
  split; [done|].
  intros tz parse FS fs exchangeId symbol filePath s path content.
  unfold writeDataToCSV, writeDataToCSV_try. fold path.
  change (csvContent tz parse []) with (Normal content).
  destruct (existsSync fs (dirname fs path) s); cbn [negb].
  - by destruct (writeFileSync fs path content s) as [[[]|e] s'].
  - destruct (mkdirSync fs (dirname fs path) s) as [[[]|e] s1]; [|done].
    by destruct (writeFileSync fs path content s1) as [[[]|e] s'].
Qed.

(** *** The derived path *)

Lemma substring_all s : String.substring 0 (String.length s) s = s.
Proof. induction s as [|a s IH]; [done|]. cbn. by rewrite IH. Qed.

Lemma prefix_empty s : String.prefix EmptyString s = true.
Proof. by destruct s. Qed.

Lemma replace_every_absent c replacement s :
  occurrences c s = 0%nat -> replace_every c replacement s = s.
Proof.
  induction s as [|a s IH]; [done|]. cbn.
  destruct (Ascii.eqb a c); [done|]. intros H. by rewrite IH.
Qed.

(** On a string with at most one occurrence of the character, replacing
    the first occurrence is replacing them all. *)
Lemma replace_once c replacement s :
  (occurrences c s <= 1)%nat ->
  replace (String c EmptyString) replacement s = replace_every c replacement s.
Proof.
  induction s as [|a s IH]; [done|].
  cbn [replace String.prefix replace_every occurrences].
  destruct (Ascii.ascii_dec c a) as [->|Hne].
  - rewrite Ascii.eqb_refl, prefix_empty. intros Hocc.
    rewrite replace_every_absent by lia.
    cbn. by rewrite Nat.sub_0_r, substring_all.
  - destruct (Ascii.eqb a c) eqn:Heq; [by apply Ascii.eqb_eq in Heq|].
    intros Hocc. by rewrite IH.
Qed.

Lemma occurrences_app c s1 s2 :
  occurrences c (s1 +:+ s2) = (occurrences c s1 + occurrences c s2)%nat.
Proof.
  induction s1 as [|a s1 IH]; [done|].
  change (String a s1 +:+ s2) with (String a (s1 +:+ s2)).
  cbn [occurrences]. rewrite IH. lia.
Qed.

Lemma occurrences_replace_every c c' s :
  c' <> c -> occurrences c' "-" = 0%nat ->
  occurrences c' (replace_every c "-" s) = occurrences c' s.
Proof.
  intros Hne Hdash. induction s as [|a s IH]; [done|].
  cbn [replace_every occurrences].
  destruct (Ascii.eqb a c) eqn:Hac.
  - apply Ascii.eqb_eq in Hac as ->.
    destruct (Ascii.eqb c c') eqn:Hcc; [by apply Ascii.eqb_eq in Hcc|].
    by rewrite occurrences_app, Hdash, IH.
  - cbn [occurrences]. by rewrite IH.
Qed.

(** Where the code and the specification agree on the derived path: on
    the symbols with at most one "/" and at most one backslash. *)
Lemma targetPath_single_separators exchangeId symbol :
  (occurrences slash symbol <= 1)%nat ->
  (occurrences backslash_char symbol <= 1)%nat ->
  targetPath exchangeId symbol None = targetPath_spec exchangeId symbol.
Proof.
  intros Hslash Hback. unfold targetPath, targetPath_spec.
  change "/" with (String slash EmptyString).
  change backslash with (String backslash_char EmptyString).
  rewrite (replace_once slash) by done.
  rewrite (replace_once backslash_char); [done|].
  by rewrite occurrences_replace_every.
Qed.

(** C9 fails on the code: only the FIRST "/" and the FIRST backslash of
    the symbol are replaced, so a symbol with two separators keeps the
    second one in the derived path. *)
Theorem derived_path_keeps_later_separators :
  targetPath "okx" "BTC/USDT/PERP" None = "./data/okx_BTC-USDT/PERP_daily.csv" /\
  targetPath_spec "okx" "BTC/USDT/PERP" = "./data/okx_BTC-USDT-PERP_daily.csv" /\
  targetPath "okx" "BTC/USDT/PERP" None <> targetPath_spec "okx" "BTC/USDT/PERP" /\
  targetPath "okx" "ETH/USDT" None = "./data/okx_ETH-USDT_daily.csv".
Proof.
  split; [vm_compute; reflexivity|].
  split; [vm_compute; reflexivity|].
  split; [vm_compute; discriminate|vm_compute; reflexivity].
Qed.

(** ** The pagination protocol *)

Import Protocol.

Section ProtocolProperties.
Context {Market A : Type}.
Variable exchange : Exchange Market A.

Implicit Types (st : loop_state) (tr : list (event Market)) (a : A).

Lemma pause_first st :
  totalRequests st = 0%nat -> pause (Market := Market) st = [].
Proof. unfold pause. by intros ->. Qed.

Lemma pause_later st :
  totalRequests st <> 0%nat -> pause (Market := Market) st = [Delay 1000].
Proof. unfold pause. by destruct (totalRequests st). Qed.

Lemma paced_iteration st s tf c l res tr :
  paced false tr = true ->
  paced (Nat.eqb (totalRequests st) 0)
    (pause st ++ FetchOHLCV s tf c l res :: tr) = true.
Proof.
  intros Htr. destruct (totalRequests st) as [|n] eqn:Hn.
  - rewrite pause_first by done. by cbn.
  - rewrite pause_later by lia. by cbn.
Qed.

Lemma loop_run_paced symbol limit st r tr :
  loop_run symbol limit st r tr ->
  paced (Nat.eqb (totalRequests st) 0) tr = true.
Proof.
  induction 1 as [| | st e _ | st ohlcv _ _ | st ohlcv t r tr _ _ _ _ _ IH].
  - done.
  - done.
  - by apply paced_iteration.
  - by apply paced_iteration.
  - by apply paced_iteration.
Qed.

Lemma loop_run_request_shape symbol limit st r tr :
  loop_run symbol limit st r tr ->
  forall s tf c l res, FetchOHLCV s tf c l res ∈ tr -> tf = "1d" /\ l = limit.
Proof.
  induction 1 as [| | st e _ | st ohlcv _ _ | st ohlcv t r tr _ _ _ _ _ IH];
    intros s tf c l res Hin.
  - by apply elem_of_nil in Hin.
  - by apply elem_of_nil in Hin.
  - apply elem_of_app in Hin as [Hin%elem_of_pause|Hin]; [done|].
    by apply list_elem_of_singleton in Hin as [= _ -> _ -> _].
  - apply elem_of_app in Hin as [Hin%elem_of_pause|Hin]; [done|].
    by apply list_elem_of_singleton in Hin as [= _ -> _ -> _].
  - apply elem_of_app in Hin as [Hin%elem_of_pause|Hin]; [done|].
    apply elem_of_cons in Hin as [[= _ -> _ -> _]|Hin]; [done|].
    by eapply IH.
Qed.

Lemma request_count_app tr1 tr2 :
  request_count (tr1 ++ tr2) = (request_count tr1 + request_count tr2)%nat.
Proof. unfold request_count. by rewrite List.filter_app, length_app. Qed.

Lemma request_count_pause st : request_count (pause (Market := Market) st) = 0%nat.
Proof. unfold pause. by destruct (1 <? _)%nat. Qed.

Lemma request_count_iteration st s tf c l res tr :
  request_count (pause st ++ FetchOHLCV s tf c l res :: tr)
  = S (request_count tr).
Proof. by rewrite request_count_app, request_count_pause. Qed.

Lemma pagination_request_count fuel symbol limit st a r a' tr :
  pagination exchange fuel symbol limit st a = (r, a', tr) ->
  (request_count tr <= fuel)%nat /\
  (r = Unfinished -> request_count tr = fuel).
Proof.
  revert st a r a' tr.
  induction fuel as [|fuel IH]; intros st a r a' tr; cbn [pagination].
  { by intros [= <- <- <-]. }
  unfold loop_body. fold (pause (Market := Market) st).
  destruct (toISOString (TimeClip (currentSince st))) as [u|e].
  2:{ intros [= <- <- <-]. split; [cbn; lia|done]. }
  destruct (fetchOHLCV exchange symbol "1d" (currentSince st) limit a)
    as [[ohlcv|e] a1].
  2:{ intros [= <- <- <-]. rewrite request_count_iteration.
      split; [cbn; lia|done]. }
  destruct (length ohlcv =? 0)%nat.
  { intros [= <- <- <-]. rewrite request_count_iteration.
    split; [cbn; lia|done]. }
  destruct (lastTimestamp ohlcv) as [t|].
  2:{ intros [= <- <- <-]. rewrite request_count_iteration.
      split; [cbn; lia|done]. }
  destruct (length_lt (length ohlcv) limit).
  { intros [= <- <- <-]. rewrite request_count_iteration.
    split; [cbn; lia|done]. }
  destruct (pagination exchange fuel symbol limit _ a1)
    as [[r' a2] tr'] eqn:Hrest.
  intros [= <- <- <-]. apply IH in Hrest as [Hle Hun].
  rewrite <- app_assoc. cbn [app]. rewrite request_count_iteration.
  split; [lia|]. intros Hr. by rewrite Hun.
Qed.

(** X1. The shape of every run: the catalog is loaded once, first;
    then come the requests, the first at once and each later one right
    after one pause of 1000 ms; every request asks for daily candles
    with the caller's limit (100 by default); and there are at most as
    many requests as loop iterations. *)
Theorem requests_are_paced fuel symbol since limit a r a' tr :
  fetchSymbolData exchange fuel symbol since limit a = (r, a', tr) ->
  (exists loaded tr', tr = LoadMarkets loaded :: tr' /\ paced true tr' = true) /\
  (forall s tf c l res,
      FetchOHLCV s tf c l res ∈ tr -> tf = "1d" /\ l = default (Int 100) limit) /\
  (request_count tr <= fuel)%nat.
Proof.
  intros Hrun. pose proof (fetchSymbolData_run _ _ _ _ _ _ _ _ _ Hrun) as Hfetch.
  split; [|split].
  - inversion Hfetch as [e | m Hnone | m resolved Hres Hinv
                        | m resolved r0 tr0 Hres Hstart Hloop]; subst; eauto.
    eexists _, _. split; [done|]. exact (loop_run_paced _ _ _ _ _ Hloop).
  - intros s tf c l res Hin.
    inversion Hfetch as [e | m Hnone | m resolved Hres Hinv
                        | m resolved r0 tr0 Hres Hstart Hloop]; subst;
      try by apply list_elem_of_singleton in Hin.
    apply elem_of_cons in Hin as [[=]|Hin].
    by eapply loop_run_request_shape.
  - revert Hrun. unfold fetchSymbolData, fetchSymbolData_try, rethrow.
    destruct (loadMarkets exchange a) as [[markets|e] a1].
    2:{ intros [= <- <- <-]. cbn. lia. }
    destruct (resolveSymbol markets symbol) as [resolved|].
    2:{ intros [= <- <- <-]. cbn. lia. }
    destruct (toISOString _).
    2:{ intros [= <- <- <-]. cbn. lia. }
    destruct (pagination _ _ _ _ _ _) as [[r' a2] tr'] eqn:Hloop.
    apply pagination_request_count in Hloop as [Hle _].
    destruct r'; intros [= <- <- <-]; exact Hle.
Qed.

Lemma pages_iteration st s tf c l page tr :
  pages (Market := Market) (pause st ++ FetchOHLCV s tf c l (Normal page) :: tr)
  = page :: pages tr.
Proof. unfold pages. by rewrite exchanges_app, exchanges_pause. Qed.

Lemma pages_throw st s tf c l e :
  pages (Market := Market) (pause st ++ [FetchOHLCV s tf c l (Throw e)]) = [].
Proof. unfold pages. by rewrite exchanges_app, exchanges_pause. Qed.

Lemma exhausted_stop limit ohlcv :
  ohlcv = [] \/ lastTimestamp ohlcv = None \/
    length_lt (length ohlcv) limit = true ->
  exhausted limit ohlcv = true.
Proof.
  unfold exhausted. intros [->|[->| ->]]; [done| |].
  - by rewrite orb_true_r.
  - by rewrite orb_true_r.
Qed.

Lemma exhausted_full limit ohlcv t :
  ohlcv <> [] -> lastTimestamp ohlcv = Some t ->
  length_lt (length ohlcv) limit = false ->
  exhausted limit ohlcv = false.
Proof.
  unfold exhausted. intros Hne -> ->. by destruct ohlcv.
Qed.

Lemma loop_run_protocol symbol limit st r tr :
  loop_run symbol limit st r tr ->
  only_last_exhausted limit (pages tr) = true /\
  outcome_fits limit r (pages tr).
Proof.
  induction 1 as [| | st e _ | st ohlcv _ Hstop
                 | st ohlcv t r tr _ Hne Hlast Hfull _ [IH1 IH2]].
  - by split.
  - by split.
  - rewrite pages_throw. by split.
  - rewrite pages_iteration. split; [done|].
    exists ohlcv. split; [done|]. by apply exhausted_stop.
  - rewrite pages_iteration.
    pose proof (exhausted_full _ _ _ Hne Hlast Hfull) as Hfullpage.
    split.
    + cbn. rewrite Hfullpage. by destruct (pages tr).
    + destruct (pages tr) as [|page' rest] eqn:Hpages.
      * destruct r; cbn in *.
        -- by destruct IH2 as (page & [=] & _).
        -- by intros page [= <-].
        -- by intros page [= <-].
      * destruct r; cbn [outcome_fits] in *; exact IH2.
Qed.

(** X2. The termination protocol, on every run: each answered page
    but the last is full (not empty, not shorter than the limit, ending
    in a numeric timestamp); and the last answered page is exhausted
    (empty, short, or without a last timestamp) exactly when the run
    returns: a run that raised or was cut has seen full pages only. *)
Theorem returns_only_on_exhaustion fuel symbol since limit a r a' tr :
  fetchSymbolData exchange fuel symbol since limit a = (r, a', tr) ->
  only_last_exhausted (default (Int 100) limit) (pages tr) = true /\
  (forall page,
      last (pages tr) = Some page ->
      exhausted (default (Int 100) limit) page = true <->
      exists data, r = Returned data).
Proof.
  intros Hrun%fetchSymbolData_run.
  inversion Hrun as [e | m Hnone | m resolved Hres Hinv
                    | m resolved r0 tr0 Hres Hstart Hloop]; subst;
    try (split; [done|]; by intros page [=]).
  destruct (loop_run_protocol _ _ _ _ _ Hloop) as [Hfull Hfits].
  split; [done|].
  intros page Hpage. change (pages (LoadMarkets (Normal m) :: tr0))
    with (pages tr0) in Hpage.
  destruct r; cbn in Hfits.
  - destruct Hfits as (page' & Hpage' & Hex).
    rewrite Hpage in Hpage'. injection Hpage' as <-. split; eauto.
  - rewrite (Hfits _ Hpage). split; [done|]. by intros [? [=]].
  - rewrite (Hfits _ Hpage). split; [done|]. by intros [? [=]].
Qed.

Lemma loop_run_length symbol L st r tr :
  loop_run symbol (Int L) st r tr ->
  forall data, r = Returned data ->
  Z.of_nat (length (allData st)) + (Z.of_nat (request_count tr) - 1) * L
  <= Z.of_nat (length data).
Proof.
  induction 1 as [| | st e _ | st ohlcv _ Hstop
                 | st ohlcv t r tr _ Hne Hlast Hfull _ IH];
    intros data Hr; try done.
  - injection Hr as <-. rewrite request_count_iteration, length_app. cbn. lia.
  - specialize (IH _ Hr). rewrite request_count_iteration.
    cbn [allData] in IH. rewrite length_app in IH.
    cbn in Hfull. rewrite Z.mul_1_r in Hfull. lia.
Qed.

(** X3. A run with an integer limit that returns after [k] requests
    holds at least [(k - 1) * limit] candles: every page before the last
    brought at least [limit] of them. *)
Theorem series_at_least_full_pages fuel symbol since L a data a' tr :
  fetchSymbolData exchange fuel symbol since (Some (Int L)) a
    = (Returned data, a', tr) ->
  Z.of_nat (request_count tr - 1) * L <= Z.of_nat (length data).
Proof.
  intros Hrun%fetchSymbolData_run.
  inversion Hrun as [| m Hnone | | m resolved r0 tr0 Hres Hstart Hloop]; subst.
  - cbn. lia.
  - pose proof (loop_run_length _ _ _ _ _ Hloop _ eq_refl) as Hlen.
    cbn [allData length] in Hlen.
    change (request_count (LoadMarkets (Normal m) :: tr0))
      with (request_count tr0).
    destruct (request_count tr0) as [|k]; [cbn; lia|].
    replace (Z.of_nat (S k - 1)) with (Z.of_nat (S k) - 1) by lia. lia.
Qed.

Lemma pagination_never_exhausted symbol limit :
  never_exhausted exchange symbol limit ->
  forall fuel st a,
    is_Some (TimeClip (currentSince st)) ->
    exists a' tr,
      pagination exchange fuel symbol limit st a = (Unfinished, a', tr) /\
      request_count tr = fuel.
Proof.
  intros Hnever fuel. induction fuel as [|fuel IH]; intros st a Hvalid.
  { by exists a, []. }
  destruct (Hnever (currentSince st) a)
    as (page & t & a1 & Hfetch & Hne & Hlast & Hfull & Hnext).
  rewrite (pagination_next exchange _ _ _ _ _ _ _ _ Hvalid Hfetch Hne Hlast Hfull).
  destruct (IH (LoopState (allData st ++ page) (add1 t) (S (totalRequests st)))
              a1 Hnext) as (a2 & tr & -> & Hcount).
  eexists _, _. split; [done|].
  by rewrite request_count_iteration, Hcount.
Qed.

(** X4. The loop has no cap of its own: against an adapter that never
    signals exhaustion, a run is still going after any number of
    iterations, having issued one request in each of them. *)
Theorem no_iteration_cap symbol since limit a markets a1 resolved :
  loadMarkets exchange a = (Normal markets, a1) ->
  resolveSymbol markets symbol = Some resolved ->
  is_Some (TimeClip (startDate since)) ->
  never_exhausted exchange resolved (default (Int 100) limit) ->
  forall fuel,
    exists a' tr,
      fetchSymbolData exchange fuel symbol since limit a = (Unfinished, a', tr) /\
      request_count tr = fuel.
Proof.
  intros Hload Hres Hstart Hnever fuel.
  rewrite (fetchSymbolData_paginates exchange _ _ _ _ _ _ _ _ Hload Hres Hstart).
  destruct (pagination_never_exhausted _ _ Hnever fuel
              (LoopState [] (startDate since) 0) a1 Hstart)
    as (a2 & tr & -> & Hcount).
  by eexists _, _.
Qed.

Lemma loop_run_invalid_next symbol limit st r tr :
  loop_run symbol limit st r tr ->
  forall tr1 s tf c l page t tr2,
    tr = tr1 ++ FetchOHLCV s tf c l (Normal page) :: tr2 ->
    lastTimestamp page = Some t ->
    length_lt (length page) l = false ->
    TimeClip (add1 t) = None ->
    tr2 = [] /\ (r = Raised RangeError_invalid_time \/ r = Unfinished).
Proof.
  induction 1 as [| | st e _ | st ohlcv _ Hstop
                 | st ohlcv t0 r tr _ Hne Hlast Hfull Hrest IH];
    intros tr1 s tf c l page t tr2 Heq Hpage Hlen Hinv.
  - by destruct tr1.
  - by destruct tr1.
  - apply iteration_split in Heq as [(_ & [=] & _)|(tr1' & _ & Heq)]; [|done].
    by destruct tr1'.
  - apply iteration_split in Heq
      as [(_ & [= _ _ _ -> ->] & _)|(tr1' & _ & Heq)]; [| |done].
    + destruct Hstop as [->|[?|?]]; [discriminate Hpage|congruence|congruence].
    + by destruct tr1'.
  - apply iteration_split in Heq
      as [(_ & [= _ _ _ _ ->] & ->)|(tr1' & _ & ->)]; [| |done].
    + assert (t0 = t) as -> by congruence.
      inversion Hrest as [| st' Hnone | st' e' [? Hsome] | st' o' [? Hsome]
                         | st' o' t' r' tr' [? Hsome]]; subst;
        cbn in *; try congruence; auto.
    + by eapply IH.
Qed.

(** X5. A full page whose last timestamp has no valid date after it
    (it is NaN, infinite, or at the end of the range of dates) is the
    last thing a run sees: its request is the last event and the run
    does not return, so the candles fetched so far are lost; it raises
    the [RangeError] of the date, or was cut before. *)
Theorem invalid_next_cursor_discards fuel symbol since limit a r a' tr
    tr1 s tf c l page t tr2 :
  fetchSymbolData exchange fuel symbol since limit a = (r, a', tr) ->
  tr = tr1 ++ FetchOHLCV s tf c l (Normal page) :: tr2 ->
  lastTimestamp page = Some t ->
  length_lt (length page) l = false ->
  TimeClip (add1 t) = None ->
  tr2 = [] /\ (r = Raised RangeError_invalid_time \/ r = Unfinished).
Proof.
  intros Hrun%fetchSymbolData_run Heq Hpage Hlen Hinv.
  inversion Hrun as [e | m Hnone | m resolved Hres Hinv'
                    | m resolved r0 tr0 Hres Hstart Hloop]; subst r.
  - destruct tr1 as [|x [|y tr1]]; simplify_eq/=.
  - destruct tr1 as [|x [|y tr1]]; simplify_eq/=.
  - destruct tr1 as [|x [|y tr1]]; simplify_eq/=.
  - destruct tr1 as [|x tr1]; simplify_eq/=.
    exact (loop_run_invalid_next _ _ _ _ _ Hloop _ _ _ _ _ _ _ _ eq_refl
             Hpage Hlen Hinv).
Qed.

(** X6. A [since] of zero (or NaN) cannot be asked for: the run is the
    run without [since], which starts on 2020-01-01. *)
Theorem falsy_since_is_default fuel symbol s limit a :
  number_truthy s = false ->
  fetchSymbolData exchange fuel symbol (Some s) limit a
  = fetchSymbolData exchange fuel symbol None limit a /\
  startDate (Some s) = Int 1577836800000.
Proof.
  intros Hs.
  assert (startDate (Some s) = startDate None) as Hstart
    by (unfold startDate; by rewrite Hs).
  split; [|by rewrite Hstart].
  unfold fetchSymbolData, fetchSymbolData_try. by rewrite Hstart.
Qed.


End ProtocolProperties.

(** ** The cursor *)

Section CursorProperties.
Context {Market A : Type}.
Variable exchange : Exchange Market A.

Implicit Types (st : loop_state) (tr : list (event Market)) (a : A).

(** One iteration on an answered page that ends in a timestamp: the
    request is issued at the cursor, the page is appended and the cursor
    is set one millisecond after that timestamp, whether the loop goes on
    (full page) or is left (short page). *)
Lemma loop_body_sets_cursor symbol limit st a page a1 t :
  is_Some (TimeClip (currentSince st)) ->
  fetchOHLCV exchange symbol "1d" (currentSince st) limit a = (Normal page, a1) ->
  lastTimestamp page = Some t ->
  let st' := LoopState (allData st ++ page) (add1 t) (S (totalRequests st)) in
  loop_body exchange symbol limit st a
  = (if length_lt (length page) limit then Break st' else Next st', a1,
     pause st ++ [FetchOHLCV symbol "1d" (currentSince st) limit (Normal page)]).
Proof.
  intros [tv Htv] Hfetch Hlast st'. unfold loop_body.
  fold (pause (Market := Market) st). rewrite Htv, Hfetch. cbn [toISOString].
  destruct (length page =? 0)%nat eqn:Hlen.
  { apply length_zero_nil in Hlen as ->. discriminate Hlast. }
  rewrite Hlast. by destruct (length_lt (length page) limit).
Qed.

(** What follows a full page in a run of the loop: the pause and the
    request at the new cursor, unless the run ends there. *)
Lemma loop_run_next_request symbol limit st r tr :
  loop_run symbol limit st r tr ->
  forall tr1 s tf c l page t tr2,
    tr = tr1 ++ FetchOHLCV s tf c l (Normal page) :: tr2 ->
    lastTimestamp page = Some t ->
    length_lt (length page) l = false ->
    (exists res tr3,
        tr2 = Delay 1000 :: FetchOHLCV s tf (add1 t) l res :: tr3) \/
    (tr2 = [] /\
     (r = Raised RangeError_invalid_time /\ TimeClip (add1 t) = None
      \/ r = Unfinished)).
Proof.
  induction 1 as [| | st e _ | st ohlcv _ Hstop
                 | st ohlcv t0 r tr _ Hne Hlast Hfull Hrest IH];
    intros tr1 s tf c l page t tr2 Heq Hpage Hlen.
  - by destruct tr1.
  - by destruct tr1.
  - apply iteration_split in Heq as [(_ & [=] & _)|(tr1' & _ & Heq)]; [|done].
    by destruct tr1'.
  - apply iteration_split in Heq
      as [(_ & [= _ _ _ -> ->] & _)|(tr1' & _ & Heq)]; [| |done].
    + destruct Hstop as [->|[?|?]]; [discriminate Hpage|congruence|congruence].
    + by destruct tr1'.
  - apply iteration_split in Heq
      as [(_ & [= -> -> _ -> ->] & ->)|(tr1' & _ & ->)]; [| |done].
    + assert (t0 = t) as -> by congruence.
      inversion Hrest as [| st' Hnone | st' e' _ | st' o' _ _
                         | st' o' t' r' tr' _ _ _ _ _]; subst;
        cbn [currentSince totalRequests] in *; eauto 10.
    + by eapply IH.
Qed.

Lemma fetchSymbolData_unfinished fuel symbol since limit a a' tr :
  fetchSymbolData exchange fuel symbol since limit a = (Unfinished, a', tr) ->
  request_count tr = fuel.
Proof.
  unfold fetchSymbolData, fetchSymbolData_try, rethrow.
  destruct (loadMarkets exchange a) as [[markets|e] a1]; [|done].
  destruct (resolveSymbol markets symbol) as [resolved|]; [|done].
  destruct (toISOString (TimeClip (startDate since))) as [u|e]; [|done].
  destruct (pagination exchange fuel resolved _ _ a1) as [[r' a2] tr'] eqn:Hloop.
  apply pagination_request_count in Hloop as [_ Hcount].
  destruct r'; intros [= <- <-]. by apply Hcount.
Qed.

Lemma fetchSymbolData_first_request fuel symbol since limit a markets a1 resolved :
  loadMarkets exchange a = (Normal markets, a1) ->
  resolveSymbol markets symbol = Some resolved ->
  is_Some (TimeClip (startDate since)) ->
  exists r a' tr',
    fetchSymbolData exchange (S fuel) symbol since limit a
    = (r, a',
       LoadMarkets (Normal markets)
       :: FetchOHLCV resolved "1d" (startDate since) (default (Int 100) limit)
            (fetchOHLCV exchange resolved "1d" (startDate since)
               (default (Int 100) limit) a1).1
       :: tr').
Proof.
  intros Hload Hres Hstart.
  rewrite (fetchSymbolData_paginates exchange _ _ _ _ _ _ _ _ Hload Hres Hstart).
  destruct Hstart as [tv Htv].
  cbn [pagination]. unfold loop_body. cbn [currentSince totalRequests allData].
  rewrite Htv. cbn [toISOString Nat.ltb Nat.leb app].
  destruct (fetchOHLCV exchange resolved "1d" (startDate since)
              (default (Int 100) limit) a1) as [[page|e] a2]; cbn [fst].
  2:{ eauto. }
  destruct (length page =? 0)%nat; [eauto|].
  destruct (lastTimestamp page) as [t|]; [|eauto].
  destruct (length_lt (length page) (default (Int 100) limit)); [eauto|].
  destruct (pagination exchange fuel resolved _ _ a2) as [[r' a3] tr'].
  eauto.
Qed.

(** C2. The cursor.  In every iteration that is answered with a page
    ending in a timestamp, the fetcher appends the page and sets the
    cursor one millisecond after that timestamp.  In a run: the first
    request, when there is an iteration for it, starts at the start
    time; a full page is followed by the pause and by a request at the
    new cursor, answered or not, unless the run ends there because that
    cursor is no valid date or the bound on the iterations is used up;
    the answered requests so chain from the start time; the result of a
    run is the concatenation of the fetched batches; and when the
    adapter returns each page in ascending order of timestamp and with
    no candle before the requested [since], the timestamps of that
    concatenation never decrease (and none is before the start). *)
Theorem cursor_advances_and_series_ascends fuel symbol since limit a r a' tr :
  fetchSymbolData exchange fuel symbol since limit a = (r, a', tr) ->
  (forall resolved st a0 page a1 t,
      is_Some (TimeClip (currentSince st)) ->
      fetchOHLCV exchange resolved "1d" (currentSince st)
        (default (Int 100) limit) a0 = (Normal page, a1) ->
      lastTimestamp page = Some t ->
      exists st',
        loop_body exchange resolved (default (Int 100) limit) st a0
        = (if length_lt (length page) (default (Int 100) limit)
           then Break st' else Next st', a1,
           pause st ++ [FetchOHLCV resolved "1d" (currentSince st)
                          (default (Int 100) limit) (Normal page)]) /\
        currentSince st' = add1 t /\ allData st' = allData st ++ page) /\
  (forall markets a1 resolved,
      loadMarkets exchange a = (Normal markets, a1) ->
      resolveSymbol markets symbol = Some resolved ->
      is_Some (TimeClip (startDate since)) ->
      (0 < fuel)%nat ->
      exists tr',
        tr = LoadMarkets (Normal markets)
             :: FetchOHLCV resolved "1d" (startDate since)
                  (default (Int 100) limit)
                  (fetchOHLCV exchange resolved "1d" (startDate since)
                     (default (Int 100) limit) a1).1
             :: tr') /\
  (forall tr1 s tf c l page t tr2,
      tr = tr1 ++ FetchOHLCV s tf c l (Normal page) :: tr2 ->
      lastTimestamp page = Some t ->
      length_lt (length page) l = false ->
      (exists res tr3,
          tr2 = Delay 1000 :: FetchOHLCV s tf (add1 t) l res :: tr3) \/
      (tr2 = [] /\
       (r = Raised RangeError_invalid_time /\ TimeClip (add1 t) = None
        \/ r = Unfinished /\ request_count tr = fuel))) /\
  cursor_chain (startDate since) (exchanges tr) /\
  (forall data, r = Returned data -> data = fetched tr) /\
  (forall start,
      to_Z (startDate since) = Some start ->
      forallb page_in_order (exchanges tr) = true ->
      ascending_from start (fetched tr) = true).
Proof.
  intros Hrun. split; [|split; [|split]].
  - intros resolved st a0 page a1 t Hdate Hfetch Hlast.
    eexists. split; [exact (loop_body_sets_cursor _ _ _ _ _ _ _ Hdate Hfetch Hlast)|].
    done.
  - intros markets a1 resolved Hload Hres Hstart Hfuel.
    destruct fuel as [|fuel]; [lia|].
    destruct (fetchSymbolData_first_request fuel symbol since limit a _ _ _
                Hload Hres Hstart) as (r0 & a0 & tr' & Hfirst).
    rewrite Hfirst in Hrun. injection Hrun as _ _ <-. eauto.
  - intros tr1 s tf c l page t tr2 Heq Hpage Hlen.
    pose proof (fetchSymbolData_run _ _ _ _ _ _ _ _ _ Hrun) as Hfetch.
    assert (r = Unfinished -> request_count tr = fuel) as Hcut.
    { intros ->. by eapply fetchSymbolData_unfinished. }
    inversion Hfetch as [e | m Hnone | m resolved Hres Hinv
                        | m resolved r0 tr0 Hres Hstart Hloop]; subst r.
    + destruct tr1 as [|x [|y tr1]]; simplify_eq/=.
    + destruct tr1 as [|x [|y tr1]]; simplify_eq/=.
    + destruct tr1 as [|x [|y tr1]]; simplify_eq/=.
    + destruct tr1 as [|x tr1]; simplify_eq/=.
      destruct (loop_run_next_request _ _ _ _ _ Hloop _ _ _ _ _ _ _ _ eq_refl
                  Hpage Hlen) as [Hnext|[-> [Hinv|Hun]]]; [by left|by auto|].
      right. split; [done|]. right. split; [done|]. by apply Hcut.
  - apply fetchSymbolData_run in Hrun.
    inversion Hrun as [| m Hnone | | m resolved r0 tr0 Hres Hstart Hloop]; subst.
    + done.
    + split; [done|]. split; [|done]. by intros data [= <-].
    + done.
    + split; [exact (loop_run_cursor_chain _ _ _ _ _ Hloop)|]. split.
      * intros data ->. exact (loop_run_data _ _ _ _ _ Hloop _ eq_refl).
      * intros start Hcur Hpages.
        exact (loop_run_ascending _ _ _ _ _ Hloop start start Hcur eq_refl
                 (Z.le_refl _) Hpages).
Qed.

End CursorProperties.

Lemma cursor_advances_and_series_ascends_witness :
  let '(r, _, tr) :=
    fetchSymbolData (scripted okx_markets) 3 "ETH/USDT" None None three_pages in
  r = Returned (fetched tr) /\
  cursor_chain (Int time_2020_01_01) (exchanges tr) /\
  ascending_from time_2020_01_01 (fetched tr) = true /\
  (exists tr',
      tr = LoadMarkets (Normal okx_markets)
           :: FetchOHLCV "ETH-USDT" "1d" (Int 1577836800000) (Int 100)
                (Normal page1) :: tr') /\
  (exists res tr3,
      tr = [LoadMarkets (Normal okx_markets);
            FetchOHLCV "ETH-USDT" "1d" (Int 1577836800000) (Int 100)
              (Normal page1)]
           ++ Delay 1000
           :: FetchOHLCV "ETH-USDT" "1d" (Int 1586390400001) (Int 100) res
           :: tr3) /\
  (exists res tr3,
      tr = [LoadMarkets (Normal okx_markets);
            FetchOHLCV "ETH-USDT" "1d" (Int 1577836800000) (Int 100)
              (Normal page1);
            Delay 1000;
            FetchOHLCV "ETH-USDT" "1d" (Int 1586390400001) (Int 100)
              (Normal page2)]
           ++ Delay 1000
           :: FetchOHLCV "ETH-USDT" "1d" (Int 1595030400001) (Int 100) res
           :: tr3).
Proof.
  destruct (fetchSymbolData (scripted okx_markets) 3 "ETH/USDT" None None
              three_pages) as [[r a'] tr] eqn:Hrun.
  destruct (cursor_advances_and_series_ascends
              (scripted okx_markets) _ _ _ _ _ _ _ _ Hrun)
    as (_ & Hfirst & Hnext & Hchain & Hdata & Hasc).
  assert (r = Returned (page1 ++ page2 ++ page3)) as Hr.
  { injection Hrun as <- _ _. vm_compute. reflexivity. }
  assert (tr = [LoadMarkets (Normal okx_markets);
                FetchOHLCV "ETH-USDT" "1d" (Int 1577836800000) (Int 100)
                  (Normal page1);
                Delay 1000;
                FetchOHLCV "ETH-USDT" "1d" (Int 1586390400001) (Int 100)
                  (Normal page2);
                Delay 1000;
                FetchOHLCV "ETH-USDT" "1d" (Int 1595030400001) (Int 100)
                  (Normal page3)]) as Htr.
  { injection Hrun as _ _ <-. vm_compute. reflexivity. }
  split; [|split; [exact Hchain|split; [|split; [|split]]]].
  - rewrite Hr. f_equal. exact (Hdata _ Hr).
  - apply Hasc; [reflexivity|].
    rewrite Htr. vm_compute. reflexivity.
  - apply (Hfirst okx_markets three_pages "ETH-USDT").
    + reflexivity.
    + vm_compute. reflexivity.
    + eexists. vm_compute. reflexivity.
    + lia.
  - destruct (Hnext [LoadMarkets (Normal okx_markets)] "ETH-USDT" "1d"
                (Int 1577836800000) (Int 100) page1 (Int 1586390400000)
                (List.skipn 2 tr))
      as [(res & tr3 & Hrest)|[_ [[Hraised _]|[Hcut _]]]].
    + rewrite Htr. reflexivity.
    + vm_compute. reflexivity.
    + vm_compute. reflexivity.
    + exists res, tr3. rewrite Htr in Hrest |- *. cbn [List.skipn] in Hrest.
      cbn [app]. do 2 f_equal. exact Hrest.
    + rewrite Hr in Hraised. discriminate Hraised.
    + rewrite Hr in Hcut. discriminate Hcut.
  - destruct (Hnext [LoadMarkets (Normal okx_markets);
                     FetchOHLCV "ETH-USDT" "1d" (Int 1577836800000) (Int 100)
                       (Normal page1);
                     Delay 1000] "ETH-USDT" "1d"
                (Int 1586390400001) (Int 100) page2 (Int 1595030400000)
                (List.skipn 4 tr))
      as [(res & tr3 & Hrest)|[_ [[Hraised _]|[Hcut _]]]].
    + rewrite Htr. reflexivity.
    + vm_compute. reflexivity.
    + vm_compute. reflexivity.
    + exists res, tr3. rewrite Htr in Hrest |- *. cbn [List.skipn] in Hrest.
      cbn [app]. do 4 f_equal. exact Hrest.
    + rewrite Hr in Hraised. discriminate Hraised.
    + rewrite Hr in Hcut. discriminate Hcut.
Defined.

(** *** The protocol at work on the simulated adapter *)

Lemma requests_are_paced_witness :
  let '(_, _, tr) :=
    fetchSymbolData (scripted okx_markets) 3 "ETH/USDT" None None three_pages in
  paced true (tail tr) = true /\ (request_count tr <= 3)%nat.
Proof.
  destruct (fetchSymbolData (scripted okx_markets) 3 "ETH/USDT" None None
              three_pages) as [[r a'] tr] eqn:Hrun.
  destruct (requests_are_paced (scripted okx_markets) _ _ _ _ _ _ _ _ Hrun)
    as ((loaded & tr' & -> & Hpaced) & _ & Hcount).
  split; [exact Hpaced|exact Hcount].
Defined.

Lemma returns_only_on_exhaustion_witness :
  let '(r, _, tr) :=
    fetchSymbolData (scripted okx_markets) 3 "ETH/USDT" None None three_pages in
  only_last_exhausted (Int 100) (pages tr) = true /\
  (exhausted (Int 100) page3 = true <-> exists data, r = Returned data).
Proof.
  destruct (fetchSymbolData (scripted okx_markets) 3 "ETH/USDT" None None
              three_pages) as [[r a'] tr] eqn:Hrun.
  destruct (returns_only_on_exhaustion (scripted okx_markets) _ _ _ _ _ _ _ _ Hrun)
    as [Hfull Hlast].
  split; [exact Hfull|]. apply Hlast.
  injection Hrun as _ _ <-. vm_compute. reflexivity.
Defined.

Lemma series_at_least_full_pages_witness :
  (3 - 1) * 100 <= Z.of_nat (length (page1 ++ page2 ++ page3)).
Proof.
  refine (series_at_least_full_pages (scripted okx_markets) 3 "ETH/USDT" None 100
            three_pages (page1 ++ page2 ++ page3) []
            [LoadMarkets (Normal okx_markets);
             FetchOHLCV "ETH-USDT" "1d" (Int time_2020_01_01) (Int 100)
               (Normal page1);
             Delay 1000;
             FetchOHLCV "ETH-USDT" "1d"
               (Int (time_2020_01_01 + 99 * msPerDay + 1)) (Int 100)
               (Normal page2);
             Delay 1000;
             FetchOHLCV "ETH-USDT" "1d"
               (Int (time_2020_01_01 + 199 * msPerDay + 1)) (Int 100)
               (Normal page3)] _).
  vm_compute. reflexivity.
Defined.

Lemma no_iteration_cap_witness :
  exists a' tr,
    fetchSymbolData (endless okx_markets [candle 0]) 7 "ETH/USDT" None
      (Some (Int 1)) tt = (Unfinished, a', tr) /\
    request_count tr = 7%nat.
Proof.
  refine (no_iteration_cap (endless okx_markets [candle 0]) "ETH/USDT" None
            (Some (Int 1)) tt okx_markets tt "ETH-USDT" _ _ _ _ 7%nat).
  - reflexivity.
  - vm_compute. reflexivity.
  - eexists. vm_compute. reflexivity.
  - intros cursor a. exists [candle 0], (Int 0), a.
    repeat split; try discriminate. eexists. vm_compute. reflexivity.
Defined.

Lemma invalid_next_cursor_discards_witness :
  (fetchSymbolData (scripted okx_markets) 5 "ETH/USDT" None (Some (Int 1))
     [Normal [candle 8640000000000000]; Normal [candle 0]]).1.1
  = Raised RangeError_invalid_time.
Proof.
  destruct (fetchSymbolData (scripted okx_markets) 5 "ETH/USDT" None
              (Some (Int 1)) [Normal [candle 8640000000000000]; Normal [candle 0]])
    as [[r a'] tr] eqn:Hrun.
  destruct (invalid_next_cursor_discards (scripted okx_markets)
              _ _ _ _ _ _ _ _
              [LoadMarkets (Normal okx_markets)]
              "ETH-USDT" "1d" (Int time_2020_01_01) (Int 1)
              [candle 8640000000000000] (Int 8640000000000000) [] Hrun)
    as [_ [Hr|Hr]].
  - injection Hrun as _ _ <-. vm_compute. reflexivity.
  - reflexivity.
  - reflexivity.
  - reflexivity.
  - exact Hr.
  - injection Hrun as <- _ _. vm_compute in Hr. discriminate Hr.
Defined.

Lemma falsy_since_is_default_witness :
  fetchSymbolData (scripted okx_markets) 3 "ETH/USDT" (Some (Int 0)) None
    three_pages
  = fetchSymbolData (scripted okx_markets) 3 "ETH/USDT" None None three_pages.
Proof.
  refine (proj1 (falsy_since_is_default (scripted okx_markets) 3 "ETH/USDT"
                   (Int 0) None three_pages _)).
  reflexivity.
Defined.


(** ** The CSV text *)

Import Render.

Lemma append_assoc (s1 s2 s3 : string) : (s1 +:+ s2) +:+ s3 = s1 +:+ s2 +:+ s3.
Proof.
  induction s1 as [|c s1 IH]; [done|].
  change (String c (s1 +:+ s2) +:+ s3 = String c (s1 +:+ s2 +:+ s3)).
  change (String c ((s1 +:+ s2) +:+ s3) = String c (s1 +:+ s2 +:+ s3)).
  by rewrite IH.
Qed.

Lemma append_nil_r (s : string) : s +:+ EmptyString = s.
Proof.
  induction s as [|c s IH]; [done|].
  change (String c (s +:+ EmptyString) = String c s). by rewrite IH.
Qed.

Lemma csv_rows_lines tz parse data lines acc :
  Forall2 (fun item line => csv_row tz parse item = Normal line) data lines ->
  csv_rows tz parse data acc = Normal (acc +:+ concat_lines lines).
Proof.
  intros Hrows. revert acc.
  induction Hrows as [|item line data lines Hrow _ IH]; intros acc; cbn.
  - by rewrite append_nil_r.
  - by rewrite Hrow, IH, append_assoc.
Qed.

Lemma csv_row_throw tz parse item e :
  csv_row tz parse item = Throw e ->
  iterable item = false /\ e = TypeError_not_iterable.
Proof.
  unfold csv_row, iterate. destruct item; try done; by intros [= <-].
Qed.

Lemma csv_row_iterable tz parse item :
  iterable item = true -> exists line, csv_row tz parse item = Normal line.
Proof. unfold csv_row, iterate. destruct item; try done; eauto. Qed.

Lemma csv_rows_cases tz parse data acc :
  (exists lines,
      Forall2 (fun item line => csv_row tz parse item = Normal line) data lines /\
      forallb iterable data = true) \/
  (csv_rows tz parse data acc = Throw TypeError_not_iterable /\
   forallb iterable data = false).
Proof.
  revert acc. induction data as [|item data IH]; intros acc.
  - left. by exists [].
  - cbn. destruct (csv_row tz parse item) as [line|e] eqn:Hrow.
    + assert (iterable item = true) as ->.
      { destruct item; try done; by unfold csv_row, iterate in Hrow. }
      destruct (IH (acc +:+ line)) as [(lines & Hlines & Hall)|[Hthrow Hall]].
      * left. exists (line :: lines). split; [by constructor|done].
      * right. by split.
    + apply csv_row_throw in Hrow as [-> ->]. by right.
Qed.

(** X8. The text of the file is the header followed by the lines of
    the items, one per item and in the order of the series: nothing is
    dropped, merged or reordered.  This holds exactly when every item
    can be destructured; otherwise building the text raises the
    [TypeError] of the destructuring. *)
Theorem content_is_header_then_lines tz parse data :
  (forallb iterable data = true ->
   exists lines,
     Forall2 (fun item line => csv_row tz parse item = Normal line) data lines /\
     csvContent tz parse data = Normal (header +:+ concat_lines lines)) /\
  (forallb iterable data = false ->
   csvContent tz parse data = Throw TypeError_not_iterable).
Proof.
  unfold csvContent.
  destruct (csv_rows_cases tz parse data header)
    as [(lines & Hlines & Hall)|[Hthrow Hall]]; rewrite Hall.
  - split; [|done]. intros _. exists lines. split; [done|].
    by apply csv_rows_lines.
  - by split.
Qed.

(** X9. A series with an item that cannot be destructured (a number,
    a boolean, [null], [undefined]) is written all or nothing:
    [writeDataToCSV] raises the [TypeError] without ever calling
    [writeFileSync], so a file already there keeps its content; the
    directory has been created by then, if it was missing. *)
Theorem bad_item_writes_nothing tz parse (FS : Type) (fs : FileSystem FS)
    data exchangeId symbol filePath s :
  forallb iterable data = false ->
  let dir := dirname fs (targetPath exchangeId symbol filePath) in
  writeDataToCSV tz parse fs data exchangeId symbol filePath s =
    if existsSync fs dir s then (Throw TypeError_not_iterable, s)
    else match mkdirSync fs dir s with
         | (Normal _, s1) => (Throw TypeError_not_iterable, s1)
         | (Throw e, s1) => (Throw e, s1)
         end.
Proof.
  intros Hbad dir.
  assert (csvContent tz parse data = Throw TypeError_not_iterable) as Hthrow.
  { unfold csvContent.
    destruct (csv_rows_cases tz parse data header)
      as [(lines & _ & Hall)|[Hthrow _]]; [congruence|done]. }
  unfold writeDataToCSV, writeDataToCSV_try. fold dir.
  rewrite Hthrow.
  destruct (existsSync fs dir s); cbn [negb]; [done|].
  by destruct (mkdirSync fs dir s) as [[[]|e] s1].
Qed.

(** X10. An item whose first element gives no valid date (it is
    missing, [undefined], NaN, infinite or out of range) raises nothing:
    its line starts with the quoted text NaN-NaN-NaN, and each missing
    field prints as the word undefined. *)
Theorem invalid_date_line tz parse fields :
  new_Date parse (index fields 0) = None ->
  csv_row tz parse (JArr fields)
  = Normal (dquote +:+ "NaN-NaN-NaN" +:+ dquote +:+ "," +:+
            ToString (index fields 1) +:+ "," +:+ ToString (index fields 2) +:+
            "," +:+ ToString (index fields 3) +:+ "," +:+
            ToString (index fields 4) +:+ "," +:+
            ToString (index fields 5) +:+ newline) /\
  forall i, (length fields <= i)%nat -> ToString (index fields i) = "undefined".
Proof.
  intros Hdate. split.
  - unfold csv_row. cbn [iterate]. by rewrite Hdate.
  - intros i Hi. unfold index. by rewrite lookup_ge_None_2.
Qed.

Lemma invalid_date_line_witness :
  csv_row (fun _ => 0) (fun _ => NaN) (JArr [])
  = Normal (dquote +:+ "NaN-NaN-NaN" +:+ dquote +:+
            ",undefined,undefined,undefined,undefined,undefined" +:+ newline).
Proof.
  exact (proj1 (invalid_date_line (fun _ => 0) (fun _ => NaN) [] eq_refl)).
Defined.

(** *** The date of a line *)

Lemma all_from_spec count check base :
  all_from count check base = true ->
  forall z, base <= z < base + Z.pos count -> check z = true.
Proof.
  revert base. induction count as [half IH|half IH|]; intros base; cbn [all_from].
  - intros [[Hbase Hlow]%andb_true_iff Hhigh]%andb_true_iff z Hz.
    destruct (decide (z = base)) as [->|]; [done|].
    destruct (decide (z < base + 1 + Z.pos half)).
    + apply (IH _ Hlow). lia.
    + apply (IH _ Hhigh). lia.
  - intros [Hlow Hhigh]%andb_true_iff z Hz.
    destruct (decide (z < base + Z.pos half)).
    + apply (IH _ Hlow). lia.
    + apply (IH _ Hhigh). lia.
  - intros Hbase z Hz. by replace z with base by lia.
Qed.

Lemma day_of_year_in_range doe :
  0 <= doe < 146097 ->
  let yoe := (doe - doe / 1460 + doe / 36524 - doe / 146096) / 365 in
  0 <= doe - (365 * yoe + yoe / 4 - yoe / 100) <= 365.
Proof. intros Hdoe yoe. subst yoe. Z.div_mod_to_equations. lia. Qed.

Lemma month_day_in_range doy :
  0 <= doy <= 365 ->
  let mp := (5 * doy + 2) / 153 in
  1 <= (if mp <? 10 then mp + 3 else mp - 9) <= 12 /\
  1 <= doy - (153 * mp + 2) / 5 + 1 <= 31.
Proof.
  intros Hdoy mp. subst mp.
  destruct (Z.ltb_spec ((5 * doy + 2) / 153) 10); Z.div_mod_to_equations; lia.
Qed.

Lemma civil_in_range day :
  let '(_, m, d) := civil day in 1 <= m <= 12 /\ 1 <= d <= 31.
Proof.
  unfold civil.
  set (z := day + 719468).
  assert (z - z / 146097 * 146097 = z mod 146097) as -> by (rewrite Z.mod_eq; lia).
  assert (0 <= z mod 146097 < 146097) as Hdoe by (apply Z.mod_pos_bound; lia).
  set (doe := z mod 146097) in *.
  pose proof (day_of_year_in_range doe Hdoe) as Hdoy. cbv zeta in *.
  exact (month_day_in_range _ Hdoy).
Qed.

Lemma padStart_two_digits_all :
  all_from 100
    (fun n => String.eqb (padStart 2 "0" (number_to_string (Int n))) (two_digits n)
              && Nat.eqb (String.length (two_digits n)) 2)
    0 = true.
Proof. vm_compute. reflexivity. Qed.

Lemma padStart_two_digits n :
  0 <= n < 100 ->
  padStart 2 "0" (number_to_string (Int n)) = two_digits n /\
  String.length (two_digits n) = 2%nat.
Proof.
  intros Hn.
  pose proof (all_from_spec _ _ _ padStart_two_digits_all n ltac:(lia)) as Hall.
  cbv beta in Hall. apply andb_true_iff in Hall as [Heq Hlen].
  split; [by apply String.eqb_eq|by apply Nat.eqb_eq].
Qed.

(** X11. The date of a line, for every valid time value and every
    time zone: the year as the language prints it (not padded), then the
    month (01 to 12) and the day (01 to 31), each in exactly two digits,
    separated by dashes; [padStart] never has to cut and never leaves a
    single digit. *)
Theorem date_is_year_month_day (tz : Z -> Z) t :
  let '(y, m, d) := civil (Day (t + tz t)) in
  1 <= m <= 12 /\ 1 <= d <= 31 /\
  formattedDate tz (Some t)
  = number_to_string (Int y) +:+ "-" +:+ two_digits m +:+ "-" +:+ two_digits d /\
  String.length (two_digits m) = 2%nat /\ String.length (two_digits d) = 2%nat.
Proof.
  pose proof (formattedDate_civil tz t) as Hdate.
  pose proof (civil_in_range (Day (t + tz t))) as Hrange.
  destruct (civil (Day (t + tz t))) as [[y m] d].
  destruct Hrange as [Hm Hd].
  destruct (padStart_two_digits m) as [Hmm Hmlen]; [lia|].
  destruct (padStart_two_digits d) as [Hdd Hdlen]; [lia|].
  by rewrite Hdate, Hmm, Hdd.
Qed.

(** *** Separators in the derived path *)

Lemma occurrences_replace_first c s :
  occurrences c "-" = 0%nat ->
  occurrences c (replace (String c EmptyString) "-" s) = (occurrences c s - 1)%nat.
Proof.
  intros Hdash. induction s as [|a s IH]; [done|].
  cbn [replace String.prefix occurrences].
  destruct (Ascii.ascii_dec c a) as [->|Hne].
  - rewrite Ascii.eqb_refl, prefix_empty, occurrences_app, Hdash.
    cbn. by rewrite !Nat.sub_0_r, substring_all.
  - destruct (Ascii.eqb a c) eqn:Heq; [by apply Ascii.eqb_eq in Heq|].
    cbn [occurrences]. by rewrite Heq, IH.
Qed.

Lemma occurrences_replace_other c c' s :
  c' <> c -> occurrences c' "-" = 0%nat ->
  occurrences c' (replace (String c EmptyString) "-" s) = occurrences c' s.
Proof.
  intros Hcc Hdash. induction s as [|a s IH]; [done|].
  cbn [replace String.prefix occurrences].
  destruct (Ascii.ascii_dec c a) as [->|Hne].
  - rewrite prefix_empty, occurrences_app, Hdash.
    destruct (Ascii.eqb a c') eqn:Heq; [by apply Ascii.eqb_eq in Heq|].
    cbn. by rewrite Nat.sub_0_r, substring_all.
  - cbn [occurrences]. by rewrite IH.
Qed.

(** X12. The symbol in the derived path has exactly one "/" and one
    backslash fewer than the requested symbol (none fewer where it has
    none): the first of each has become a dash, the others stay. *)
Theorem derived_path_separator_count exchangeId symbol :
  let cleanSymbol := replace backslash "-" (replace "/" "-" symbol) in
  targetPath exchangeId symbol None
  = "./data/" +:+ exchangeId +:+ "_" +:+ cleanSymbol +:+ "_daily.csv" /\
  occurrences slash cleanSymbol = (occurrences slash symbol - 1)%nat /\
  occurrences backslash_char cleanSymbol
  = (occurrences backslash_char symbol - 1)%nat.
Proof.
  intros cleanSymbol. split; [done|]. subst cleanSymbol.
  change "/" with (String slash EmptyString).
  change backslash with (String backslash_char EmptyString).
  split.
  - rewrite occurrences_replace_other by done.
    by rewrite occurrences_replace_first.
  - rewrite occurrences_replace_first by done.
    by rewrite occurrences_replace_other.
Qed.

(** *** Plain fields *)

Lemma plain_app s1 s2 : plain (s1 +:+ s2) = plain s1 && plain s2.
Proof.
  induction s1 as [|c s1 IH]; [done|].
  change (String c s1 +:+ s2) with (String c (s1 +:+ s2)).
  cbn [plain]. by rewrite IH, andb_assoc.
Qed.

Lemma plain_substring n m s : plain s = true -> plain (String.substring n m s) = true.
Proof.
  revert n m. induction s as [|c s IH]; intros n m.
  - by destruct n, m.
  - cbn [plain]. intros [Hc Hs]%andb_true_iff.
    destruct n as [|n]; cbn [String.substring].
    + destruct m as [|m]; [done|]. cbn [plain]. by rewrite Hc, IH.
    + by apply IH.
Qed.

Lemma plain_repeat_zero n : plain (repeat_string n "0") = true.
Proof.
  induction n as [|n IH]; [done|]. cbn [repeat_string].
  by rewrite plain_app, IH.
Qed.

Lemma plain_pretty_N_char x : structural (pretty_N_char x) = false.
Proof.
  unfold pretty_N_char.
  destruct x as [|p]; [done|].
  do 4 (try destruct p as [p|p|]; try done).
Qed.

Lemma plain_pretty_N_go x s : plain s = true -> plain (pretty_N_go x s) = true.
Proof.
  revert s. induction (N.lt_wf_0 x) as [x _ IH]; intros s Hs.
  destruct (decide (x = 0%N)) as [->|Hx].
  - by rewrite pretty_N_go_0.
  - rewrite pretty_N_go_step by lia. apply IH.
    + apply N.div_lt; lia.
    + cbn [plain]. by rewrite plain_pretty_N_char.
Qed.

Lemma plain_digits z : plain (digits z) = true.
Proof.
  unfold digits, pretty, pretty_N. case_decide; [done|].
  by apply plain_pretty_N_go.
Qed.

Lemma plain_positive_to_string m e : plain (positive_to_string m e) = true.
Proof.
  unfold positive_to_string, string_take, string_drop.
  destruct (strip_zeros _ m e) as [s e'].
  repeat case_match;
    rewrite ?plain_app, ?plain_substring, ?plain_repeat_zero, ?plain_digits;
    auto using plain_digits.
Qed.

Lemma plain_number_to_string x : plain (number_to_string x) = true.
Proof.
  destruct x as [m e| | |]; try done. cbn [number_to_string].
  repeat case_match; rewrite ?plain_app, ?plain_positive_to_string; done.
Qed.

Lemma plain_padStart n s : plain s = true -> plain (padStart n "0" s) = true.
Proof. intros Hs. unfold padStart. by rewrite plain_app, plain_repeat_zero. Qed.

Lemma plain_formattedDate tz date : plain (formattedDate tz date) = true.
Proof.
  unfold formattedDate.
  by rewrite !plain_app, !plain_padStart, !plain_number_to_string
    by apply plain_number_to_string.
Qed.

Lemma plain_occurrences c s :
  structural c = true -> plain s = true -> occurrences c s = 0%nat.
Proof.
  intros Hc. induction s as [|a s IH]; [done|]. cbn.
  intros [Ha Hs]%andb_true_iff.
  destruct (Ascii.eqb a c) eqn:Heq.
  - apply Ascii.eqb_eq in Heq as ->. by rewrite Hc in Ha.
  - by rewrite IH.
Qed.

(** X13. A candle of six numbers always renders as one well-formed
    record, whatever the numbers (NaN and infinities included) and the
    time zone: the line has exactly two double quotes (around the date),
    five commas (between its six fields), and one newline, at its end. *)
Theorem numeric_line_is_one_record tz parse ts open high low close volume :
  exists body,
    csv_row tz parse
      (JArr [JNum ts; JNum open; JNum high; JNum low; JNum close; JNum volume])
    = Normal (body +:+ newline) /\
    occurrences newline_char body = 0%nat /\
    occurrences comma body = 5%nat /\
    occurrences dquote_char body = 2%nat.
Proof.
  exists (dquote +:+ formattedDate tz (TimeClip ts) +:+ dquote +:+ "," +:+
          number_to_string open +:+ "," +:+ number_to_string high +:+ "," +:+
          number_to_string low +:+ "," +:+ number_to_string close +:+ "," +:+
          number_to_string volume).
  split.
  - unfold csv_row. cbn [iterate index lookup list_lookup default new_Date ToString].
    by rewrite !append_assoc.
  - rewrite !occurrences_app.
    rewrite !(plain_occurrences _ (formattedDate _ _)),
      !(plain_occurrences _ (number_to_string _))
      by (done || apply plain_formattedDate || apply plain_number_to_string).
    done.
Qed.

(** ** The configuration *)

Import Config.

(** *** [split] *)

Lemma split_not_nil sep s : split sep s <> [].
Proof.
  induction s as [|c s IH]; [done|]. cbn.
  destruct (Ascii.eqb c sep); [done|]. by destruct (split sep s).
Qed.

Lemma split_pieces_free sep s piece :
  piece ∈ split sep s -> occurrences sep piece = 0%nat.
Proof.
  revert piece. induction s as [|c s IH]; intros piece; cbn.
  - by intros ->%list_elem_of_singleton.
  - destruct (Ascii.eqb c sep) eqn:Hc.
    + intros [->|Hin]%elem_of_cons; [done|by apply IH].
    + destruct (split sep s) as [|first rest].
      * intros ->%list_elem_of_singleton. cbn. by rewrite Hc.
      * intros [->|Hin]%elem_of_cons.
        -- cbn. rewrite Hc. apply IH, list_elem_of_here.
        -- by apply IH, list_elem_of_further.
Qed.

Lemma split_free sep s : occurrences sep s = 0%nat -> split sep s = [s].
Proof.
  induction s as [|c s IH]; [done|]. cbn.
  destruct (Ascii.eqb c sep); [done|]. intros Hs. by rewrite IH.
Qed.

Lemma split_append sep s rest :
  occurrences sep s = 0%nat ->
  split sep (s +:+ String sep rest) = s :: split sep rest.
Proof.
  induction s as [|c s IH].
  - intros _. change (EmptyString +:+ String sep rest) with (String sep rest).
    cbn. by rewrite Ascii.eqb_refl.
  - change (String c s +:+ String sep rest)
      with (String c (s +:+ String sep rest)).
    cbn. destruct (Ascii.eqb c sep); [done|]. intros Hs. by rewrite IH.
Qed.

Lemma split_join sep items :
  items <> [] ->
  Forall (fun item => occurrences sep item = 0%nat) items ->
  split sep (join (String sep EmptyString) items) = items.
Proof.
  intros Hne Hfree. induction Hfree as [|item items Hitem Hitems IH]; [done|].
  destruct items as [|item' items].
  - by apply split_free.
  - change (join (String sep EmptyString) (item :: item' :: items))
      with (item +:+ String sep EmptyString
            +:+ join (String sep EmptyString) (item' :: items)).
    change (String sep EmptyString
            +:+ join (String sep EmptyString) (item' :: items))
      with (String sep (join (String sep EmptyString) (item' :: items))).
    by rewrite split_append, IH.
Qed.

(** *** [trim] *)

Section Strip.
Variable w2 : Ascii.ascii -> Ascii.ascii -> bool.
Variable w3 : Ascii.ascii -> Ascii.ascii -> Ascii.ascii -> bool.

Lemma strip_fixed l : starts_white w2 w3 l = false -> strip w2 w3 l = l.
Proof.
  destruct l as [|a [|b [|c l]]]; cbn; try done.
  - by intros ->%orb_false_iff%proj1.
  - intros [-> [-> _]%orb_false_iff]%orb_false_iff. done.
  - by intros [-> [-> ->]%orb_false_iff]%orb_false_iff.
Qed.

Lemma strip_spec n l :
  (length l <= n)%nat ->
  starts_white w2 w3 (strip w2 w3 l) = false /\ strip w2 w3 l `suffix_of` l.
Proof.
  revert l. induction n as [|n IH]; intros l Hlen.
  { destruct l; [done|cbn in Hlen; lia]. }
  destruct l as [|a l1]; [done|]. cbn [strip].
  destruct (white1 a) eqn:Ha.
  { destruct (IH l1) as [Hw Hs]; [cbn in Hlen; lia|].
    split; [done|]. by apply suffix_cons_r. }
  destruct l1 as [|b l2].
  { split; [by cbn; rewrite Ha|done]. }
  destruct (w2 a b) eqn:Hb.
  { destruct (IH l2) as [Hw Hs]; [cbn in Hlen; lia|].
    split; [done|]. by do 2 apply suffix_cons_r. }
  destruct l2 as [|c l3].
  { split; [by cbn; rewrite Ha, Hb|done]. }
  destruct (w3 a b c) eqn:Hc.
  { destruct (IH l3) as [Hw Hs]; [cbn in Hlen; lia|].
    split; [done|]. by do 3 apply suffix_cons_r. }
  split; [by cbn; rewrite Ha, Hb, Hc|done].
Qed.

Lemma strip_not_white l : starts_white w2 w3 (strip w2 w3 l) = false.
Proof. by apply (strip_spec (length l)). Qed.

Lemma strip_suffix l : strip w2 w3 l `suffix_of` l.
Proof. by apply (strip_spec (length l)). Qed.

Lemma strip_idemp l : strip w2 w3 (strip w2 w3 l) = strip w2 w3 l.
Proof. apply strip_fixed, strip_not_white. Qed.

Lemma starts_white_prefix p l :
  p `prefix_of` l -> starts_white w2 w3 l = false -> starts_white w2 w3 p = false.
Proof.
  intros [k ->].
  destruct p as [|a [|b [|c p]]]; cbn; try done.
  - by intros [-> _]%orb_false_iff.
  - destruct k; cbn; intros [-> [-> _]%orb_false_iff]%orb_false_iff; done.
Qed.
End Strip.

Lemma trimEnd_prefix l : trimEnd l `prefix_of` l.
Proof.
  unfold trimEnd.
  destruct (strip_suffix (fun b a => white2 a b) (fun c b a => white3 a b c)
              (reverse l)) as [k Hk].
  exists (reverse k).
  by rewrite <- reverse_app, <- Hk, reverse_involutive.
Qed.

Lemma trimEnd_idemp l : trimEnd (trimEnd l) = trimEnd l.
Proof. unfold trimEnd. by rewrite reverse_involutive, strip_idemp. Qed.

Lemma trimStart_trimEnd l : trimStart l = l -> trimStart (trimEnd l) = trimEnd l.
Proof.
  intros Hl. apply strip_fixed.
  apply (starts_white_prefix _ _ _ l); [apply trimEnd_prefix|].
  rewrite <- Hl. apply strip_not_white.
Qed.

Lemma trim_idemp s : trim (trim s) = trim s.
Proof.
  unfold trim. rewrite String.list_ascii_of_string_of_list_ascii.
  rewrite trimStart_trimEnd by apply strip_idemp.
  by rewrite trimEnd_idemp.
Qed.

Lemma occurrences_list c s :
  occurrences c s = 0%nat <-> c ∉ String.list_ascii_of_string s.
Proof.
  induction s as [|a s IH]; cbn.
  - split; [intros _ []%elem_of_nil|done].
  - rewrite not_elem_of_cons, <- IH.
    destruct (Ascii.eqb a c) eqn:Heq.
    + apply Ascii.eqb_eq in Heq as ->. split; [done|by intros [[] _]].
    + apply Ascii.eqb_neq in Heq. change (0 + occurrences c s)%nat with (occurrences c s).
      split; [by intros Hs|by intros [_ Hs]].
Qed.

Lemma trim_free c s : occurrences c s = 0%nat -> occurrences c (trim s) = 0%nat.
Proof.
  rewrite !occurrences_list. unfold trim.
  rewrite String.list_ascii_of_string_of_list_ascii.
  intros Hfree Hin. apply Hfree.
  destruct (trimEnd_prefix (trimStart (String.list_ascii_of_string s))) as [k Hk].
  destruct (strip_suffix white2 white3 (String.list_ascii_of_string s)) as [k' Hk'].
  rewrite Hk'. apply elem_of_app. right.
  unfold trimStart in Hk. rewrite Hk. apply elem_of_app. by left.
Qed.

(** *** [parseList] *)

Lemma parseList_items value defaultValue item :
  value <> EmptyString ->
  item ∈ parseList (Some value) defaultValue <->
  item <> EmptyString /\ exists piece, piece ∈ split separator value /\ item = trim piece.
Proof.
  intros Hvalue. unfold parseList.
  assert (truthy (JStr value) = true) as -> by by destruct value.
  cbn [negb]. rewrite list_elem_of_In, List.filter_In, <- list_elem_of_In.
  rewrite list_elem_of_fmap. unfold nonempty.
  split.
  - intros [(piece & -> & Hpiece) Hlen]. split; [|eauto].
    by destruct (trim piece).
  - intros [Hne (piece & Hpiece & ->)]. split; [eauto|].
    by destruct (trim piece).
Qed.

(** X14. Every item that [parseList] reads from a non-empty value is
    the trimmed text of one of its comma-separated pieces: it is not
    empty, it holds no comma, and it has no white space left at either
    end. *)
Theorem parseList_items_are_clean value defaultValue item :
  value <> EmptyString ->
  item ∈ parseList (Some value) defaultValue ->
  item <> EmptyString /\ occurrences separator item = 0%nat /\ trim item = item.
Proof.
  intros Hvalue (Hne & piece & Hpiece & ->)%parseList_items; [|done].
  split; [done|]. split.
  - by apply trim_free, (split_pieces_free _ value).
  - apply trim_idemp.
Qed.

(** X15. Writing a list and reading it back: a list of items that are
    not empty, hold no comma and have no white space at their ends,
    joined by commas, is read back as it is (an empty list is not: it
    joins to the empty value, which reads as the default). *)
Theorem parseList_join_round_trip items defaultValue :
  items <> [] ->
  Forall (fun item => item <> EmptyString /\ occurrences separator item = 0%nat
                      /\ trim item = item) items ->
  parseList (Some (join (String separator EmptyString) items)) defaultValue = items.
Proof.
  intros Hne Hclean. unfold parseList.
  assert (truthy (JStr (join (String separator EmptyString) items)) = true) as ->.
  { destruct items as [|item [|item' items]]; [done| |].
    - apply Forall_inv in Hclean as (Hitem & _). by destruct item.
    - apply Forall_inv in Hclean as (Hitem & _). by destruct item. }
  cbn [negb]. rewrite split_join.
  - clear Hne. induction Hclean as [|item items (Hitem & _ & Htrim) _ IH]; [done|].
    cbn. rewrite Htrim, IH.
    by destruct item.
  - done.
  - eapply Forall_impl; [exact Hclean|]. by intros item (_ & ? & _).
Qed.

(** X16. The default is used only for a variable that is unset or
    empty.  A value that is not empty never falls back to it: one made
    of commas and white space alone reads as the empty list. *)
Theorem parseList_default_only_when_unset defaultValue :
  parseList None defaultValue = defaultValue /\
  parseList (Some EmptyString) defaultValue = defaultValue /\
  forall value,
    value <> EmptyString ->
    parseList (Some value) defaultValue = parseList (Some value) [] /\
    (parseList (Some value) defaultValue = [] <->
     forall piece, piece ∈ split separator value -> trim piece = EmptyString).
Proof.
  split; [done|]. split; [done|].
  intros value Hvalue. split.
  { unfold parseList. by destruct value. }
  split.
  - intros Hnil piece Hpiece.
    destruct (decide (trim piece = EmptyString)) as [|Hne]; [done|].
    assert (trim piece ∈ parseList (Some value) defaultValue) as Hin
      by (apply parseList_items; eauto).
    rewrite Hnil in Hin. by apply elem_of_nil in Hin.
  - intros Hblank.
    destruct (parseList (Some value) defaultValue) as [|item items] eqn:Hlist;
      [done|].
    assert (item ∈ parseList (Some value) defaultValue) as Hin
      by (rewrite Hlist; apply list_elem_of_here).
    apply parseList_items in Hin as (Hne & piece & Hpiece & ->); [|done].
    by rewrite Hblank in Hne.
Qed.

(** *** Validation *)

Lemma or_undefined_Some v s :
  or_undefined v = Some s -> v = Some s /\ s <> EmptyString.
Proof. destruct v as [[|c t]|]; cbn; [done| |done]. by intros [= <-]. Qed.

Lemma enum_default_Some options fallback v s :
  fallback ∈ options -> enum_default options fallback v = Some s -> s ∈ options.
Proof.
  intros Hfallback. destruct v as [t|]; cbn.
  - destruct (bool_decide (t ∈ options)) eqn:Ht; [|done].
    apply bool_decide_eq_true in Ht. by intros [= <-].
  - by intros [= <-].
Qed.

Lemma enum_default_None options fallback v :
  enum_default options fallback v = None -> exists s, v = Some s /\ s ∉ options.
Proof.
  destruct v as [t|]; cbn; [|done].
  destruct (bool_decide (t ∈ options)) eqn:Ht; [done|].
  apply bool_decide_eq_false in Ht. eauto.
Qed.

Lemma or_undefined_intro v s :
  v = Some s -> s <> EmptyString -> or_undefined v = Some s.
Proof. intros -> Hne. by destruct s. Qed.

Lemma enum_default_unlisted options fallback s :
  s ∉ options -> enum_default options fallback (Some s) = None.
Proof. intros Hnot. cbn. by rewrite bool_decide_eq_false_2. Qed.

(** X17. What validation does to the environment: it fails exactly
    when PROXY_URL, LOG_LEVEL or NODE_ENV is set, not empty and not
    acceptable; EXCHANGES and SYMBOLS never make it fail.  A
    configuration that passes has one of the known log levels and
    environments, a proxy URL only if it is not empty and is a URL, and
    the lists that [parseList] read. *)
Theorem config_validation (is_url : string -> bool) env :
  (config is_url env = None <->
   (exists url, PROXY_URL env = Some url /\ url <> EmptyString /\ is_url url = false)
   \/ (exists level, LOG_LEVEL env = Some level /\ level <> EmptyString
                     /\ level ∉ logLevels)
   \/ (exists node, NODE_ENV env = Some node /\ node <> EmptyString
                    /\ node ∉ nodeEnvs)) /\
  (forall c,
      config is_url env = Some c ->
      (forall url, proxyUrl c = Some url ->
                   PROXY_URL env = Some url /\ url <> EmptyString /\ is_url url = true)
      /\ logLevel c ∈ logLevels /\ nodeEnv c ∈ nodeEnvs
      /\ exchanges c = parseList (EXCHANGES env) ["okx"]
      /\ symbols c = parseList (SYMBOLS env) ["ETH/USDT"]).
Proof.
  unfold config, ConfigSchema_parse, rawConfig.
  cbn [raw_proxyUrl raw_logLevel raw_nodeEnv raw_exchanges raw_symbols].
  destruct (or_undefined (PROXY_URL env)) as [url|] eqn:Hproxy.
  1: destruct (is_url url) eqn:Hurl.
  2:{ (* a proxy URL that is none *)
      apply or_undefined_Some in Hproxy as [Hproxy Hne].
      split; [|done]. split; [|done]. intros _. left. eauto. }
  all: cbn [mbind option_bind].
  all: destruct (enum_default logLevels "info" (or_undefined (LOG_LEVEL env)))
         as [level|] eqn:Hlevel.
  2,4: apply enum_default_None in Hlevel as (level & Hlevel & Hnot);
       apply or_undefined_Some in Hlevel as [Hlevel Hne];
       (split; [|done]); (split; [|done]); intros _; right; left; eauto.
  all: cbn [mbind option_bind].
  all: destruct (enum_default nodeEnvs "development" (or_undefined (NODE_ENV env)))
         as [node|] eqn:Hnode.
  2,4: apply enum_default_None in Hnode as (node & Hnode & Hnot);
       apply or_undefined_Some in Hnode as [Hnode Hne];
       (split; [|done]); (split; [|done]); intros _; right; right; eauto.
  all: cbn [mbind option_bind].
  all: split.
  1,3: split; [done|];
       intros [(url' & Hu & Hne & Hbad)
              |[(level' & Hl & Hne & Hbad)|(node' & Hn & Hne & Hbad)]];
       [ pose proof (or_undefined_intro _ _ Hu Hne) as Hu'
       | rewrite (or_undefined_intro _ _ Hl Hne) in Hlevel;
         by rewrite (enum_default_unlisted _ _ _ Hbad) in Hlevel
       | rewrite (or_undefined_intro _ _ Hn Hne) in Hnode;
         by rewrite (enum_default_unlisted _ _ _ Hbad) in Hnode ];
       congruence.
  all: intros c [= <-]; cbn [proxyUrl logLevel nodeEnv exchanges symbols].
  all: apply enum_default_Some in Hlevel;
       [|unfold logLevels;
         repeat first [apply list_elem_of_here | apply list_elem_of_further]].
  all: apply enum_default_Some in Hnode;
       [|unfold nodeEnvs;
         repeat first [apply list_elem_of_here | apply list_elem_of_further]].
  all: split; [|done].
  - intros url' [= <-]. apply or_undefined_Some in Hproxy as [Hproxy Hne]. done.
  - done.
Qed.

(** ** The main program *)

Import App.

Section AppProperties.
Context {Market A FS : Type}.
Variable LocalTZA : Z -> Z.
Variable Date_parse : string -> number.
Variable exchange : Exchange Market A.
Variable fs : FileSystem FS.
Variable ccxt : Ccxt A.
Variable config : Config.

Implicit Types (tr : list (event Market)) (a : A) (s : FS).

Lemma market_loads_app tr1 tr2 :
  market_loads (tr1 ++ tr2) = (market_loads tr1 + market_loads tr2)%nat.
Proof. unfold market_loads. by rewrite List.filter_app, List.length_app. Qed.

Lemma market_loads_pause st : market_loads (pause (Market := Market) st) = 0%nat.
Proof. unfold pause. by destruct (1 <? S (totalRequests st))%nat. Qed.

Lemma loop_run_market_loads symbol limit st r tr :
  loop_run symbol limit st r tr -> market_loads tr = 0%nat.
Proof.
  induction 1 as [| | st e _ | st ohlcv _ _ | st ohlcv t r tr _ _ _ _ _ IH];
    try done.
  - by rewrite market_loads_app, market_loads_pause.
  - by rewrite market_loads_app, market_loads_pause.
  - rewrite market_loads_app, market_loads_pause.
    change (market_loads (FetchOHLCV symbol "1d" (currentSince st) limit
                            (Normal ohlcv) :: tr))
      with (market_loads tr).
    by rewrite IH.
Qed.

Lemma fetch_run_market_loads symbol since limit r tr :
  fetch_run symbol since limit r tr -> market_loads tr = 1%nat.
Proof.
  destruct 1 as [e | markets _ | markets resolved _ _ | markets resolved r tr _ _ Hloop];
    try done.
  apply loop_run_market_loads in Hloop.
  change (market_loads (LoadMarkets (Normal markets) :: tr))
    with (S (market_loads tr)).
  by rewrite Hloop.
Qed.

(** One symbol: a fetch that ends is followed by the write, or has
    raised; there is one [loadMarkets] call either way. *)
Lemma process_symbol_Some fuel exchangeId symbol a s :
  (fetchSymbolData exchange fuel symbol None None a).1.1 <> Unfinished ->
  exists result a' tr s',
    process_symbol LocalTZA Date_parse exchange fs fuel exchangeId symbol a s
      = Some (result, a', tr, s')
    /\ market_loads tr = 1%nat.
Proof.
  unfold process_symbol.
  destruct (fetchSymbolData exchange fuel symbol None None a)
    as [[r a'] tr] eqn:Hfetch.
  apply fetchSymbolData_run, fetch_run_market_loads in Hfetch.
  destruct r as [data|e|]; cbn [fst]; intros Hfinished; [| |done].
  - destruct (writeDataToCSV LocalTZA Date_parse fs data exchangeId symbol None s)
      as [[[]|e] s']; eauto 10.
  - eauto 10.
Qed.

Lemma process_symbols_Some fuel exchangeId symbols a s :
  (forall symbol a, symbol ∈ symbols ->
     (fetchSymbolData exchange fuel symbol None None a).1.1 <> Unfinished) ->
  exists results tr s',
    process_symbols LocalTZA Date_parse exchange fs fuel exchangeId symbols a s
      = Some (results, tr, s')
    /\ results.*1 = symbols
    /\ market_loads tr = length symbols.
Proof.
  revert a s. induction symbols as [|symbol symbols IH]; intros a s Hfinish.
  { by exists [], [], s. }
  destruct (process_symbol_Some fuel exchangeId symbol a s)
    as (result & a' & tr & s' & Hsymbol & Hloads).
  { apply Hfinish, list_elem_of_here. }
  destruct (IH a' s') as (results & tr' & s'' & Hrest & Hnames & Hloads').
  { intros symbol' a0 Hin. by apply Hfinish, list_elem_of_further. }
  exists ((symbol, result) :: results), (tr ++ tr'), s''.
  cbn [process_symbols]. rewrite Hsymbol. cbn [mbind option_bind].
  rewrite Hrest. cbn [mbind option_bind].
  split; [done|]. split; [cbn; by rewrite Hnames|].
  rewrite market_loads_app, Hloads, Hloads'. done.
Qed.

Lemma process_exchange_Some fuel exchangeId s :
  (forall symbol a, symbol ∈ symbols config ->
     (fetchSymbolData exchange fuel symbol None None a).1.1 <> Unfinished) ->
  exists result tr s',
    process_exchange LocalTZA Date_parse exchange fs ccxt config fuel exchangeId s
      = Some (result, tr, s')
    /\ result_fits ccxt config exchangeId result
    /\ market_loads tr
       = (if is_processed (exchangeId, result) then length (symbols config) else 0)%nat.
Proof.
  intros Hfinish. unfold process_exchange.
  destruct (DataFetcher_new ccxt config exchangeId) as [a|e] eqn:Hnew.
  - destruct (process_symbols_Some fuel exchangeId (symbols config) a s Hfinish)
      as (results & tr & s' & -> & Hnames & Hloads).
    exists (Processed results), tr, s'. cbn [mbind option_bind].
    split; [done|]. split; [|done]. split; [eauto|done].
  - by exists (ExchangeFailed e), [], s.
Qed.

Lemma process_exchanges_Some fuel exchangeIds s :
  (forall symbol a, symbol ∈ symbols config ->
     (fetchSymbolData exchange fuel symbol None None a).1.1 <> Unfinished) ->
  exists results tr s',
    process_exchanges LocalTZA Date_parse exchange fs ccxt config fuel exchangeIds s
      = Some (results, tr, s')
    /\ results.*1 = exchangeIds
    /\ Forall (fun result => result_fits ccxt config result.1 result.2) results
    /\ market_loads tr
       = (length (List.filter is_processed results) * length (symbols config))%nat.
Proof.
  intros Hfinish. revert s.
  induction exchangeIds as [|exchangeId exchangeIds IH]; intros s.
  { by exists [], [], s. }
  destruct (process_exchange_Some fuel exchangeId s Hfinish)
    as (result & tr & s' & Hexchange & Hfits & Hloads).
  destruct (IH s') as (results & tr' & s'' & Hrest & Hnames & Hall & Hloads').
  exists ((exchangeId, result) :: results), (tr ++ tr'), s''.
  cbn [process_exchanges]. rewrite Hexchange. cbn [mbind option_bind].
  rewrite Hrest. cbn [mbind option_bind].
  split; [done|]. split; [cbn; by rewrite Hnames|].
  split; [by constructor|].
  rewrite market_loads_app, Hloads, Hloads'. cbn [List.filter].
  destruct (is_processed (exchangeId, result)); cbn [length]; lia.
Qed.

(** X18. No failure ends the program early: when every fetch ends,
    [main] ends too, with one result for every configured exchange, in
    order.  An exchange failed only if its instance could not be made,
    and then with that error; every other one has a result for every
    configured symbol, in order, whatever was raised on the way. *)
Theorem main_attempts_every_pair fuel s :
  (forall symbol a, symbol ∈ symbols config ->
     (fetchSymbolData exchange fuel symbol None None a).1.1 <> Unfinished) ->
  exists results tr s',
    main LocalTZA Date_parse exchange fs ccxt config fuel s = Some (results, tr, s')
    /\ results.*1 = exchanges config
    /\ Forall (fun result => result_fits ccxt config result.1 result.2) results.
Proof.
  intros Hfinish. unfold main.
  destruct (process_exchanges_Some fuel (exchanges config) s Hfinish)
    as (results & tr & s' & Hmain & Hnames & Hall & _).
  eauto 10.
Qed.

(** X19. The market catalog is loaded again for every symbol: a run of
    [main] calls [loadMarkets] once for each pair of an exchange whose
    instance was made and a configured symbol. *)
Theorem markets_loaded_for_every_pair fuel s :
  (forall symbol a, symbol ∈ symbols config ->
     (fetchSymbolData exchange fuel symbol None None a).1.1 <> Unfinished) ->
  exists results tr s',
    main LocalTZA Date_parse exchange fs ccxt config fuel s = Some (results, tr, s')
    /\ market_loads tr
       = (length (List.filter is_processed results) * length (symbols config))%nat.
Proof.
  intros Hfinish. unfold main.
  destruct (process_exchanges_Some fuel (exchanges config) s Hfinish)
    as (results & tr & s' & Hmain & _ & _ & Hloads).
  eauto 10.
Qed.

(** X20. A configuration that names only exchanges the adapter library
    does not have makes no request and touches no file, and [main] still
    ends normally: each exchange fails with the constructor's error. *)
Theorem unsupported_exchanges_touch_nothing fuel s :
  Forall (fun exchangeId => exchangeId ∉ ccxt_exchanges ccxt) (exchanges config) ->
  main LocalTZA Date_parse exchange fs ccxt config fuel s
  = Some ((fun exchangeId =>
             (exchangeId, ExchangeFailed (unsupported_exchange exchangeId)))
          <$> exchanges config, [], s).
Proof.
  unfold main. induction 1 as [|exchangeId exchangeIds Hnot _ IH]; [done|].
  cbn [process_exchanges]. unfold process_exchange at 1, DataFetcher_new.
  rewrite bool_decide_eq_false_2 by done. cbn [mbind option_bind].
  rewrite IH. done.
Qed.


End AppProperties.

Lemma config_proxyUrl (is_url : string -> bool) env c :
  Config.config is_url env = Some c -> proxyUrl c = or_undefined (PROXY_URL env).
Proof.
  unfold Config.config, ConfigSchema_parse, rawConfig.
  cbn [raw_proxyUrl raw_logLevel raw_nodeEnv raw_exchanges raw_symbols].
  destruct (match or_undefined (PROXY_URL env) with
            | Some url => if is_url url then Some tt else None
            | None => Some tt
            end) as [[]|]; [|done].
  cbn [mbind option_bind].
  destruct (enum_default logLevels "info" (or_undefined (LOG_LEVEL env)))
    as [level|]; [|done].
  cbn [mbind option_bind].
  destruct (enum_default nodeEnvs "development" (or_undefined (NODE_ENV env)))
    as [node|]; [|done].
  cbn [mbind option_bind]. by intros [= <-].
Qed.

(** X22. From the environment to the adapter: under a configuration
    that passed validation, the instance of a supported exchange is made
    with the rate limiter on, a timeout of 30000 ms, and as proxy the
    value of PROXY_URL when it is set and not empty, none otherwise;
    the constructor's own test of the proxy URL changes nothing. *)
Theorem validated_proxy_reaches_adapter {A : Type} (ccxt : Ccxt A)
    (is_url : string -> bool) env c exchangeId :
  Config.config is_url env = Some c ->
  exchangeId ∈ ccxt_exchanges ccxt ->
  DataFetcher_new ccxt c exchangeId
  = ccxt_new ccxt exchangeId
      {| enableRateLimit := true;
         timeout := 30000;
         httpProxy := or_undefined (PROXY_URL env) |}.
Proof.
  intros Hconfig Hin. unfold DataFetcher_new.
  rewrite bool_decide_eq_true_2 by done.
  rewrite (config_proxyUrl _ _ _ Hconfig).
  destruct (or_undefined (PROXY_URL env)) as [url|] eqn:Hproxy; [|done].
  apply or_undefined_Some in Hproxy as [_ Hne].
  by destruct url.
Qed.

(** *** The program at work in the simulated world *)

Lemma main_attempts_every_pair_witness :
  exists results tr s',
    main (fun _ => 0) (fun _ => NaN) one_candle memory library two_by_two 1
      blank_disk = Some (results, tr, s')
    /\ results.*1 = exchanges two_by_two
    /\ Forall (fun result => result_fits library two_by_two result.1 result.2)
         results.
Proof.
  apply (main_attempts_every_pair (fun _ => 0) (fun _ => NaN) one_candle memory
           library two_by_two 1 blank_disk).
  intros symbol [] _. unfold fetchSymbolData, fetchSymbolData_try.
  cbn [one_candle Protocol.endless loadMarkets].
  destruct (resolveSymbol okx_markets symbol); vm_compute; discriminate.
Defined.

Lemma markets_loaded_for_every_pair_witness :
  exists results tr s',
    main (fun _ => 0) (fun _ => NaN) one_candle memory library two_by_two 1
      blank_disk = Some (results, tr, s')
    /\ market_loads tr
       = (length (List.filter is_processed results)
          * length (symbols two_by_two))%nat.
Proof.
  apply (markets_loaded_for_every_pair (fun _ => 0) (fun _ => NaN) one_candle
           memory library two_by_two 1 blank_disk).
  intros symbol [] _. unfold fetchSymbolData, fetchSymbolData_try.
  cbn [one_candle Protocol.endless loadMarkets].
  destruct (resolveSymbol okx_markets symbol); vm_compute; discriminate.
Defined.

Lemma unsupported_exchanges_touch_nothing_witness :
  main (fun _ => 0) (fun _ => NaN) one_candle memory library
    {| proxyUrl := None; logLevel := "info"; nodeEnv := "test";
       exchanges := ["hyperion"; "OKX"]; symbols := ["ETH/USDT"] |} 1 blank_disk
  = Some ([("hyperion", ExchangeFailed (unsupported_exchange "hyperion"));
           ("OKX", ExchangeFailed (unsupported_exchange "OKX"))],
          [], blank_disk).
Proof.
  refine (unsupported_exchanges_touch_nothing (fun _ => 0) (fun _ => NaN)
            one_candle memory library _ 1 blank_disk _).
  repeat constructor; apply (bool_decide_unpack _); vm_compute; exact I.
Defined.


Lemma validated_proxy_reaches_adapter_witness :
  DataFetcher_new library
    {| proxyUrl := Some "http://127.0.0.1:7890"; logLevel := "info";
       nodeEnv := "development"; exchanges := ["okx"];
       symbols := ["ETH/USDT"] |} "okx"
  = ccxt_new library "okx"
      {| enableRateLimit := true; timeout := 30000;
         httpProxy := Some "http://127.0.0.1:7890" |}.
Proof.
  refine (validated_proxy_reaches_adapter library (fun _ => true)
            {| PROXY_URL := Some "http://127.0.0.1:7890"; LOG_LEVEL := Some "";
               NODE_ENV := None; EXCHANGES := None; SYMBOLS := Some "" |}
            _ "okx" _ _).
  - vm_compute. reflexivity.
  - apply (bool_decide_unpack _). vm_compute. exact I.
Defined.

(** *** The configuration and the writer at work *)

Lemma parseList_items_are_clean_witness :
  "binance" <> EmptyString /\ occurrences separator "binance" = 0%nat
  /\ trim "binance" = "binance".
Proof.
  refine (parseList_items_are_clean " okx , binance,, kraken " [] "binance" _ _).
  - discriminate.
  - apply (bool_decide_unpack _). vm_compute. exact I.
Defined.

Lemma parseList_join_round_trip_witness :
  parseList (Some (join (String separator EmptyString) ["okx"; "binance"])) []
  = ["okx"; "binance"].
Proof.
  refine (parseList_join_round_trip ["okx"; "binance"] [] _ _).
  - discriminate.
  - repeat constructor; try discriminate; vm_compute; reflexivity.
Defined.

Lemma parseList_default_only_when_unset_witness :
  parseList (Some " , ,, ") ["okx"] = parseList (Some " , ,, ") [] /\
  (parseList (Some " , ,, ") ["okx"] = [] <->
   forall piece, piece ∈ split separator " , ,, " -> trim piece = EmptyString).
Proof.
  refine (proj2 (proj2 (parseList_default_only_when_unset ["okx"])) " , ,, " _).
  discriminate.
Defined.

Lemma config_validation_witness :
  Config.config (String.prefix "http")
    {| PROXY_URL := Some "socks"; LOG_LEVEL := Some "info";
       NODE_ENV := None; EXCHANGES := Some "okx,binance";
       SYMBOLS := None |} = None.
Proof.
  apply (proj1 (config_validation (String.prefix "http")
                  {| PROXY_URL := Some "socks"; LOG_LEVEL := Some "info";
                     NODE_ENV := None; EXCHANGES := Some "okx,binance";
                     SYMBOLS := None |})).
  left. exists "socks". split; [reflexivity|]. split; [discriminate|reflexivity].
Defined.

Lemma content_is_header_then_lines_witness :
  exists lines,
    Forall2 (fun item line => csv_row (fun _ => 0) (fun _ => NaN) item = Normal line)
      [candle 1700000000000; JArr []] lines /\
    csvContent (fun _ => 0) (fun _ => NaN) [candle 1700000000000; JArr []]
    = Normal (header +:+ concat_lines lines).
Proof.
  refine (proj1 (content_is_header_then_lines (fun _ => 0) (fun _ => NaN)
                   [candle 1700000000000; JArr []]) _).
  vm_compute. reflexivity.
Defined.

Lemma bad_item_writes_nothing_witness :
  writeDataToCSV (fun _ => 0) (fun _ => NaN) memory
    [candle 1700000000000; JNum (Int 7)] "okx" "ETH/USDT" None
    {| dirs := ["./data"]; files := [("./data/okx_ETH-USDT_daily.csv", header)] |}
  = (Throw TypeError_not_iterable,
     {| dirs := ["./data"]; files := [("./data/okx_ETH-USDT_daily.csv", header)] |}).
Proof.
  refine (bad_item_writes_nothing (fun _ => 0) (fun _ => NaN) disk memory
            [candle 1700000000000; JNum (Int 7)] "okx" "ETH/USDT" None
            {| dirs := ["./data"];
               files := [("./data/okx_ETH-USDT_daily.csv", header)] |} _).
  vm_compute. reflexivity.
Defined.
